(** * Messaging and checkout core of the tutoring marketplace

    A shallow embedding of the conversation resolver and message store of the
    [useChat] hook, of the tutor [Inbox] component and of the fee split of the
    connect-payment handler, followed by the properties established for them.

    Conventions.
    - A JavaScript string is the list of its UTF-16 code units.
    - Row identifiers (uuids) are opaque and only compared for equality; they
      are natural numbers here, the store drawing fresh ones from a counter.
    - Timestamps ([created_at], [updated_at]) are integers (microseconds),
      compared the way the store compares [timestamptz] values.
    - Every request to the hosted backend either succeeds or fails; the
      outcome is an explicit boolean argument of the operation that issues
      the request. *)

From Stdlib Require Import String Ascii Floats Uint63.
From Stdlib Require Import List ZArith NArith Lia Bool Permutation Sorted.
Import ListNotations.

Set Implicit Arguments.

(** ** JavaScript strings *)

Module Js.

Definition jsstring := list N.

Definition of_string (s : string) : jsstring :=
  map N_of_ascii (list_ascii_of_string s).

(** [WhiteSpace] and [LineTerminator] code points of ECMAScript, the set
    [String.prototype.trim] strips. *)
Definition isWhiteSpace (c : N) : bool :=
  ((9 <=? c) && (c <=? 13) || (c =? 32) || (c =? 160) || (c =? 5760)
   || (8192 <=? c) && (c <=? 8202) || (c =? 8232) || (c =? 8233)
   || (c =? 8239) || (c =? 8287) || (c =? 12288) || (c =? 65279))%N.

Fixpoint trimStart (s : jsstring) : jsstring :=
  match s with
  | [] => []
  | c :: s' => if isWhiteSpace c then trimStart s' else s
  end.

Definition trimEnd (s : jsstring) : jsstring := rev (trimStart (rev s)).

Definition trim (s : jsstring) : jsstring := trimEnd (trimStart s).

(** Truthiness of a string value: the empty string is falsy. *)
Definition truthy (s : jsstring) : bool :=
  match s with [] => false | _ :: _ => true end.

(** Truthiness of a possibly [undefined]/[null] string. *)
Definition truthy_opt (s : option jsstring) : bool :=
  match s with Some s' => truthy s' | None => false end.

(** [a || b] on possibly undefined strings. *)
Definition or_else (a b : option jsstring) : option jsstring :=
  if truthy_opt a then a else b.

(** [s.split('@')[0]]: the part of [s] before the first ['@']. *)
Fixpoint before_at (s : jsstring) : jsstring :=
  match s with
  | [] => []
  | c :: s' => if (c =? 64)%N then [] else c :: before_at s'
  end.

(** A string is blank when every code unit is stripped by [trim]; the
    empty string is blank. *)
Definition blank (s : jsstring) : bool := forallb isWhiteSpace s.

End Js.

Import Js.

(** ** Data model *)

Definition uuid := N.
Definition timestamp := Z.
Bind Scope N_scope with uuid.
Bind Scope Z_scope with timestamp.

Inductive SenderType := client | tutor.

Definition SenderType_eqb (a b : SenderType) : bool :=
  match a, b with
  | client, client | tutor, tutor => true
  | _, _ => false
  end.

Record Message := mkMessage {
  msg_id : uuid;
  msg_content : jsstring;
  msg_sender_type : SenderType;
  msg_created_at : timestamp;
  msg_conversation_id : uuid
}.

Record Conversation := mkConversation {
  conv_id : uuid;
  conv_client_id : uuid;
  conv_tutor_id : uuid;
  conv_tutor_name : jsstring;
  conv_client_name : jsstring;
  conv_client_email : option jsstring;
  conv_created_at : timestamp;
  conv_updated_at : timestamp
}.

(** The authenticated identity handed out by [useAuth]. *)
Record User := mkUser {
  user_id : uuid;
  user_email : option jsstring;
  user_full_name : option jsstring
}.

Record TutorData := mkTutorData {
  td_id : uuid;
  td_name : jsstring
}.

(** A destructive toast raised from a [catch] block. *)
Record Toast := mkToast {
  toast_title : string;
  toast_description : string
}.

Definition toast_start_failed : Toast :=
  mkToast "Error" "Failed to start conversation. Please try again.".
Definition toast_load_messages_failed : Toast :=
  mkToast "Error" "Failed to load messages.".
Definition toast_send_failed : Toast :=
  mkToast "Error" "Failed to send message. Please try again.".
Definition toast_reply_failed : Toast :=
  mkToast "Error" "Failed to send reply. Please try again.".
Definition toast_load_conversations_failed : Toast :=
  mkToast "Error" "Failed to load conversations.".

(** ** The hosted relational store *)

(** What the query layer promises about row order.  [order_by key asc] is
    [.order(column, { ascending })]: the rows come back sorted on the one
    column named, and nothing is promised about rows that agree on it.
    [unordered] is a select without [.order]: the rows in some order. *)
Class QueryEngine := {
  order_by : forall A : Type, (A -> timestamp) -> bool -> list A -> list A;
  unordered : forall A : Type, list A -> list A;
  order_by_perm : forall (A : Type) (key : A -> timestamp) asc (l : list A),
      Permutation l (order_by key asc l);
  order_by_asc : forall (A : Type) (key : A -> timestamp) (l : list A),
      StronglySorted (fun a b => (key a <= key b)%Z) (order_by key true l);
  order_by_desc : forall (A : Type) (key : A -> timestamp) (l : list A),
      StronglySorted (fun a b => (key b <= key a)%Z) (order_by key false l);
  unordered_perm : forall (A : Type) (l : list A), Permutation l (unordered l)
}.

(** Two ways a store can honour that promise.  Both sort by insertion into a
    sorted accumulator; they differ in the side on which equal keys land. *)
Section Sorting.
Variable A : Type.
Variable le : A -> A -> bool.

Fixpoint insert_sorted (x : A) (l : list A) : list A :=
  match l with
  | [] => [x]
  | y :: l' => if le x y then x :: l else y :: insert_sorted x l'
  end.

Definition sort_by (l : list A) : list A :=
  fold_right insert_sorted [] l.
End Sorting.

Definition key_le (A : Type) (key : A -> timestamp) (asc : bool) (a b : A) : bool :=
  if asc then (key a <=? key b)%Z else (key b <=? key a)%Z.

(** Rows that agree on the key stay in table order. *)
Definition stable_order_by (A : Type) (key : A -> timestamp) (asc : bool)
    (l : list A) : list A :=
  sort_by (key_le key asc) l.

(** Rows that agree on the key come back in reverse table order. *)
Definition reversing_order_by (A : Type) (key : A -> timestamp) (asc : bool)
    (l : list A) : list A :=
  sort_by (key_le key asc) (rev l).

(** The tables.  Both lists are in insertion order: a new row goes last. *)
Record Db := mkDb {
  db_conversations : list Conversation;
  db_messages : list Message;
  db_next_uuid : N
}.

(** The one fact about the table definitions that the resolver depends on
    and that the application code does not show: whether [conversations]
    carries a uniqueness constraint on [(client_id, tutor_id)]. *)
Record Schema := mkSchema {
  unique_client_tutor : bool
}.

Definition same_pair (cid tid : uuid) (c : Conversation) : bool :=
  ((conv_client_id c =? cid) && (conv_tutor_id c =? tid))%N.

Definition in_conversation (cid : uuid) (m : Message) : bool :=
  (msg_conversation_id m =? cid)%N.

(** [.maybeSingle()]: the row when exactly one matches, [null] otherwise
    (no row, or an error because several rows matched). *)
Definition maybeSingle (A : Type) (rows : list A) : option A :=
  match rows with
  | [r] => Some r
  | _ => None
  end.

(** [.insert(row).select().single()] on [conversations]; [None] is the
    [error] of a failed request or of a rejected duplicate pair. *)
Definition insert_conversation (sch : Schema) (ok : bool) (now : timestamp)
    (cid tid : uuid) (tname cname : jsstring) (cemail : option jsstring)
    (d : Db) : Db * option Conversation :=
  if negb ok then (d, None)
  else if unique_client_tutor sch && existsb (same_pair cid tid) (db_conversations d)
  then (d, None)
  else
    let row := mkConversation (db_next_uuid d) cid tid tname cname cemail now now in
    (mkDb (db_conversations d ++ [row]) (db_messages d) (N.succ (db_next_uuid d)),
     Some row).

(** [.insert(row).select().single()] on [messages]; the store stamps the
    row with its id and [created_at]. *)
Definition insert_message (ok : bool) (now : timestamp) (cid : uuid)
    (content : jsstring) (sender : SenderType) (d : Db) : Db * option Message :=
  if negb ok then (d, None)
  else
    let row := mkMessage (db_next_uuid d) content sender now cid in
    (mkDb (db_conversations d) (db_messages d ++ [row]) (N.succ (db_next_uuid d)),
     Some row).

Definition touch (ts : timestamp) (cid : uuid) (c : Conversation) : Conversation :=
  if (conv_id c =? cid)%N
  then mkConversation (conv_id c) (conv_client_id c) (conv_tutor_id c)
         (conv_tutor_name c) (conv_client_name c) (conv_client_email c)
         (conv_created_at c) ts
  else c.

(** [.update({ updated_at }).eq('id', cid)] on [conversations]. *)
Definition update_updated_at (ok : bool) (ts : timestamp) (cid : uuid) (d : Db) : Db :=
  if negb ok then d
  else mkDb (map (touch ts cid) (db_conversations d)) (db_messages d) (db_next_uuid d).

(** The embedded resource [messages(content, sender_type, created_at)]. *)
Record EmbeddedMessage := mkEmbedded {
  emb_content : jsstring;
  emb_sender_type : SenderType;
  emb_created_at : timestamp
}.

Definition embed (m : Message) : EmbeddedMessage :=
  mkEmbedded (msg_content m) (msg_sender_type m) (msg_created_at m).

Section Queries.
Context {E : QueryEngine}.

(** [from('conversations').select('*').eq('client_id', ..).eq('tutor_id', ..)] *)
Definition select_pair (cid tid : uuid) (d : Db) : list Conversation :=
  unordered (filter (same_pair cid tid) (db_conversations d)).

(** [from('messages').select('*').eq('conversation_id', ..)
      .order('created_at', { ascending: true })] *)
Definition select_messages (cid : uuid) (d : Db) : list Message :=
  order_by msg_created_at true (filter (in_conversation cid) (db_messages d)).

(** The messages embedded in one conversation row of the inbox query. *)
Definition embedded_messages (d : Db) (c : Conversation) : list EmbeddedMessage :=
  map embed (unordered (filter (in_conversation (conv_id c)) (db_messages d))).

(** [from('conversations').select('*, messages!inner(..)')
      .eq('tutor_id', userId).order('updated_at', { ascending: false })]:
    the inner join keeps a conversation only if a message refers to it. *)
Definition select_inbox (userId : uuid) (d : Db)
    : list (Conversation * list EmbeddedMessage) :=
  map (fun c => (c, embedded_messages d c))
    (order_by conv_updated_at false
       (filter (fun c => (conv_tutor_id c =? userId)%N
                         && existsb (in_conversation (conv_id c)) (db_messages d))
          (db_conversations d))).
End Queries.

(** ** The realtime service *)

(** An open channel: [supabase.channel(topic).on('postgres_changes',
    { event: 'INSERT', table: 'messages', filter: 'conversation_id=eq.<id>' },
    callback).subscribe()]. *)
Record Channel := mkChannel {
  ch_handle : N;
  ch_topic : string * uuid;
  ch_filter : uuid
}.

(** The backend as the application sees it: the tables, the open channels
    and the log of callback invocations, oldest first, each entry naming the
    channel whose callback ran and the [payload.new] it ran with. *)
Record Backend := mkBackend {
  be_db : Db;
  be_channels : list Channel;
  be_next_handle : N;
  be_callbacks : list (N * Message)
}.

Definition subscribe (prefix : string) (cid : uuid) (b : Backend) : N * Backend :=
  let h := be_next_handle b in
  (h, mkBackend (be_db b) (be_channels b ++ [mkChannel h (prefix, cid) cid])
        (N.succ h) (be_callbacks b)).

Definition removeChannel (h : N) (b : Backend) : Backend :=
  mkBackend (be_db b)
    (filter (fun ch => negb (ch_handle ch =? h)%N) (be_channels b))
    (be_next_handle b) (be_callbacks b).

Definition listening (row : Message) (ch : Channel) : bool :=
  (ch_filter ch =? msg_conversation_id row)%N.

(** A committed insert is pushed to every open channel whose filter matches
    the row's conversation. *)
Definition notify (row : Message) (chs : list Channel) : list (N * Message) :=
  map (fun ch => (ch_handle ch, row)) (filter (listening row) chs).

Definition append_message (ok : bool) (now : timestamp) (cid : uuid)
    (content : jsstring) (sender : SenderType) (b : Backend)
    : Backend * option Message :=
  match insert_message ok now cid content sender (be_db b) with
  | (d, Some row) =>
      (mkBackend d (be_channels b) (be_next_handle b)
         (be_callbacks b ++ notify row (be_channels b)), Some row)
  | (d, None) =>
      (mkBackend d (be_channels b) (be_next_handle b) (be_callbacks b), None)
  end.

Definition with_db (f : Db -> Db) (b : Backend) : Backend :=
  mkBackend (f (be_db b)) (be_channels b) (be_next_handle b) (be_callbacks b).

(** The payloads a channel's callback has been invoked with, oldest first. *)
Definition received (h : N) (b : Backend) : list Message :=
  map snd (filter (fun e => (fst e =? h)%N) (be_callbacks b)).

(** The rows of conversation [cid] stored in [after] and not yet in [before],
    in insertion order. *)
Definition appended_since (cid : uuid) (before after : Backend) : list Message :=
  filter (in_conversation cid)
    (skipn (length (db_messages (be_db before))) (db_messages (be_db after))).

(** Handles are never reused: every open channel and every logged callback
    carries a handle already handed out. *)
Definition handles_fresh (b : Backend) : bool :=
  forallb (fun ch => (ch_handle ch <? be_next_handle b)%N) (be_channels b)
  && forallb (fun e => (fst e <? be_next_handle b)%N) (be_callbacks b).

(** ** The [useChat] hook *)

Record ChatState := mkChat {
  chat_conversation : option Conversation;
  chat_messages : list Message;
  chat_loading : bool;
  chat_sending : bool;
  chat_toasts : list Toast
}.

Definition chat_set_messages (ms : list Message) (st : ChatState) : ChatState :=
  mkChat (chat_conversation st) ms (chat_loading st) (chat_sending st) (chat_toasts st).

Definition chat_set_conversation (c : Conversation) (st : ChatState) : ChatState :=
  mkChat (Some c) (chat_messages st) (chat_loading st) (chat_sending st) (chat_toasts st).

Definition chat_set_loading (v : bool) (st : ChatState) : ChatState :=
  mkChat (chat_conversation st) (chat_messages st) v (chat_sending st) (chat_toasts st).

Definition chat_set_sending (v : bool) (st : ChatState) : ChatState :=
  mkChat (chat_conversation st) (chat_messages st) (chat_loading st) v (chat_toasts st).

Definition chat_toast (t : Toast) (st : ChatState) : ChatState :=
  mkChat (chat_conversation st) (chat_messages st) (chat_loading st) (chat_sending st)
    (chat_toasts st ++ [t]).

(** [user.user_metadata?.full_name || user.email?.split('@')[0] || 'Student'] *)
Definition client_display_name (u : User) : jsstring :=
  match or_else (or_else (user_full_name u) (option_map before_at (user_email u)))
          (Some (of_string "Student")) with
  | Some s => s
  | None => []
  end.

(** Where a call of [initializeConversation] stands between its two
    requests. *)
Inductive ResolverPc :=
| AtLookup
| AtInsert
| Finished (result : option Conversation).

Section Resolver.
Context {E : QueryEngine}.
Variable sch : Schema.

(** The look-up request.  Only [data] is read from its answer, so a failed
    request is indistinguishable from "no such conversation". *)
Definition lookup_step (ok : bool) (u : User) (td : TutorData) (d : Db) : ResolverPc :=
  let data := if ok then maybeSingle (select_pair (user_id u) (td_id td) d) else None in
  match data with
  | Some existing => Finished (Some existing)
  | None => AtInsert
  end.

(** The insert request; its [error] is thrown and caught. *)
Definition insert_step (ok : bool) (now : timestamp) (u : User) (td : TutorData)
    (d : Db) : ResolverPc * Db :=
  let '(d', res) :=
    insert_conversation sch ok now (user_id u) (td_id td) (td_name td)
      (client_display_name u) (user_email u) d in
  (Finished res, d').

(** One request of a call in progress. *)
Definition resolver_step (ok : bool) (now : timestamp) (u : User) (td : TutorData)
    (pc : ResolverPc) (d : Db) : ResolverPc * Db :=
  match pc with
  | AtLookup => (lookup_step ok u td d, d)
  | AtInsert => insert_step ok now u td d
  | Finished r => (Finished r, d)
  end.

(** The whole call, run without interruption. *)
Definition initializeConversation (user : option User) (td : TutorData)
    (ok_lookup ok_insert : bool) (now : timestamp)
    (st : ChatState) (d : Db) : ChatState * Db * option Conversation :=
  match user with
  | None => (st, d, None)
  | Some u =>
      match lookup_step ok_lookup u td d with
      | Finished (Some existing) =>
          (chat_set_loading false (chat_set_conversation existing (chat_set_loading true st)),
           d, Some existing)
      | _ =>
          match insert_step ok_insert now u td d with
          | (Finished (Some newConversation), d') =>
              (chat_set_loading false
                 (chat_set_conversation newConversation (chat_set_loading true st)),
               d', Some newConversation)
          | (_, d') =>
              (chat_set_loading false (chat_toast toast_start_failed (chat_set_loading true st)),
               d', None)
          end
      end
  end.
End Resolver.

Section Chat.
Context {E : QueryEngine}.

(** [loadMessages] of the hook: replace the transcript by a fresh read. *)
Definition chat_loadMessages (ok : bool) (conversationId : uuid)
    (st : ChatState) (d : Db) : ChatState :=
  if ok then chat_set_messages (select_messages conversationId d) st
  else chat_toast toast_load_messages_failed st.

(** [sendMessage]: the client side of the append. *)
Definition sendMessage (user : option User) (content : jsstring)
    (ok : bool) (now : timestamp) (st : ChatState) (b : Backend)
    : ChatState * Backend :=
  match chat_conversation st, user with
  | Some conversation, Some _ =>
      if negb (truthy (trim content)) then (st, b)
      else
        match append_message ok now (conv_id conversation) (trim content) client b with
        | (b', Some _) => (chat_set_sending false (chat_set_sending true st), b')
        | (b', None) =>
            (chat_set_sending false (chat_toast toast_send_failed (chat_set_sending true st)),
             b')
        end
  | _, _ => (st, b)
  end.

(** The callback handed to the channel: [setMessages(prev => [...prev,
    payload.new])]. *)
Definition chat_on_insert (payload : Message) (st : ChatState) : ChatState :=
  chat_set_messages (chat_messages st ++ [payload]) st.

(** The subscription effect: nothing without a conversation; otherwise an
    initial load and a channel on the conversation.  The handle returned
    is the one the clean-up releases. *)
Definition chat_effect (ok_load : bool) (st : ChatState) (b : Backend)
    : ChatState * Backend * option N :=
  match chat_conversation st with
  | None => (st, b, None)
  | Some conversation =>
      let st' := chat_loadMessages ok_load (conv_id conversation) st (be_db b) in
      let '(h, b') := subscribe "messages:" (conv_id conversation) b in
      (st', b', Some h)
  end.

Definition chat_cleanup (h : N) (b : Backend) : Backend := removeChannel h b.
End Chat.

(** ** The tutor [Inbox] component *)

Record ConversationSummary := mkSummary {
  sum_conversation : Conversation;
  sum_last_message : option EmbeddedMessage;
  sum_unread_count : nat
}.

Record InboxState := mkInbox {
  inbox_conversations : list ConversationSummary;
  inbox_selectedConversation : option ConversationSummary;
  inbox_messages : list Message;
  inbox_newMessage : jsstring;
  inbox_loading : bool;
  inbox_sending : bool;
  inbox_toasts : list Toast
}.

Definition inbox_set_conversations (cs : list ConversationSummary) (st : InboxState) :=
  mkInbox cs (inbox_selectedConversation st) (inbox_messages st) (inbox_newMessage st)
    (inbox_loading st) (inbox_sending st) (inbox_toasts st).

Definition inbox_set_messages (ms : list Message) (st : InboxState) :=
  mkInbox (inbox_conversations st) (inbox_selectedConversation st) ms (inbox_newMessage st)
    (inbox_loading st) (inbox_sending st) (inbox_toasts st).

Definition inbox_set_newMessage (s : jsstring) (st : InboxState) :=
  mkInbox (inbox_conversations st) (inbox_selectedConversation st) (inbox_messages st) s
    (inbox_loading st) (inbox_sending st) (inbox_toasts st).

Definition inbox_set_loading (v : bool) (st : InboxState) :=
  mkInbox (inbox_conversations st) (inbox_selectedConversation st) (inbox_messages st)
    (inbox_newMessage st) v (inbox_sending st) (inbox_toasts st).

Definition inbox_set_sending (v : bool) (st : InboxState) :=
  mkInbox (inbox_conversations st) (inbox_selectedConversation st) (inbox_messages st)
    (inbox_newMessage st) (inbox_loading st) v (inbox_toasts st).

Definition inbox_toast (t : Toast) (st : InboxState) :=
  mkInbox (inbox_conversations st) (inbox_selectedConversation st) (inbox_messages st)
    (inbox_newMessage st) (inbox_loading st) (inbox_sending st) (inbox_toasts st ++ [t]).

Definition authored_by_client (m : EmbeddedMessage) : bool :=
  SenderType_eqb (emb_sender_type m) client.

(** The body of the [map] in [loadConversations]. *)
Definition summarise (row : Conversation * list EmbeddedMessage) : ConversationSummary :=
  let '(convo, conversationMessages) := row in
  let lastMessage :=
    if (0 <? List.length conversationMessages)%nat
    then nth_error conversationMessages (List.length conversationMessages - 1)
    else None in
  let unreadCount := List.length (filter authored_by_client conversationMessages) in
  mkSummary convo lastMessage (if (0 <? unreadCount)%nat then unreadCount else 0%nat).

Section Inbox.
Context {E : QueryEngine}.

(** The summaries [loadConversations] computes from a successful query. *)
Definition processedConvos (userId : uuid) (d : Db) : list ConversationSummary :=
  map summarise (select_inbox userId d).

Definition loadConversations (ok : bool) (userId : uuid) (st : InboxState) (d : Db)
    : InboxState :=
  if ok then inbox_set_loading false (inbox_set_conversations (processedConvos userId d) st)
  else inbox_set_loading false (inbox_toast toast_load_conversations_failed st).

Definition inbox_loadMessages (ok : bool) (conversationId : uuid)
    (st : InboxState) (d : Db) : InboxState :=
  if ok then inbox_set_messages (select_messages conversationId d) st
  else inbox_toast toast_load_messages_failed st.

(** [sendReply]: the tutor side of the append.  The answer of the
    [updated_at] request is not looked at. *)
Definition sendReply (ok_insert ok_update : bool) (now client_now : timestamp)
    (st : InboxState) (b : Backend) : InboxState * Backend :=
  match inbox_selectedConversation st with
  | None => (st, b)
  | Some selectedConversation =>
      if negb (truthy (trim (inbox_newMessage st))) || inbox_sending st then (st, b)
      else
        let cid := conv_id (sum_conversation selectedConversation) in
        match append_message ok_insert now cid (trim (inbox_newMessage st)) tutor b with
        | (b', Some _) =>
            (inbox_set_sending false (inbox_set_newMessage [] (inbox_set_sending true st)),
             with_db (update_updated_at ok_update client_now cid) b')
        | (b', None) =>
            (inbox_set_sending false (inbox_toast toast_reply_failed (inbox_set_sending true st)),
             b')
        end
  end.

(** The channel callback of the inbox: extend the transcript and refresh
    the conversation list. *)
Definition inbox_on_insert (ok_refresh : bool) (userId : uuid) (payload : Message)
    (st : InboxState) (d : Db) : InboxState :=
  loadConversations ok_refresh userId
    (inbox_set_messages (inbox_messages st ++ [payload]) st) d.

Definition inbox_effect (ok_load : bool) (st : InboxState) (b : Backend)
    : InboxState * Backend * option N :=
  match inbox_selectedConversation st with
  | None => (st, b, None)
  | Some selectedConversation =>
      let cid := conv_id (sum_conversation selectedConversation) in
      let st' := inbox_loadMessages ok_load cid st (be_db b) in
      let '(h, b') := subscribe "inbox-messages:" cid b in
      (st', b', Some h)
  end.

Definition inbox_cleanup (h : N) (b : Backend) : Backend := removeChannel h b.
End Inbox.

(** ** Histories of the messaging backend *)

(** What the mounted components do to the backend, one entry per call.  An
    entry carries the state of the component that makes the call. *)
Inductive Op :=
| ChatEffect (ok_load : bool) (st : ChatState)
| InboxEffect (ok_load : bool) (st : InboxState)
| Cleanup (h : N)
| SendMessage (user : option User) (content : jsstring) (ok : bool) (now : timestamp)
    (st : ChatState)
| SendReply (ok_insert ok_update : bool) (now client_now : timestamp) (st : InboxState).

Definition releases (h : N) (o : Op) : bool :=
  match o with
  | Cleanup h' => (h' =? h)%N
  | _ => false
  end.

Section Histories.
Context {E : QueryEngine}.

Definition run_op (b : Backend) (o : Op) : Backend :=
  match o with
  | ChatEffect ok_load st => snd (fst (chat_effect ok_load st b))
  | InboxEffect ok_load st => snd (fst (inbox_effect ok_load st b))
  | Cleanup h => removeChannel h b
  | SendMessage user content ok now st => snd (sendMessage user content ok now st b)
  | SendReply ok_insert ok_update now client_now st =>
      snd (sendReply ok_insert ok_update now client_now st b)
  end.

Definition run (ops : list Op) (b : Backend) : Backend := fold_left run_op ops b.
End Histories.

(** ** Two overlapping calls of the resolver *)

Inductive Tab := TabA | TabB.

(** One request reaching the store: whose it is, whether it succeeds, and
    the store's clock. *)
Record Tick := mkTick {
  tick_tab : Tab;
  tick_ok : bool;
  tick_now : timestamp
}.

Record Race := mkRace {
  race_db : Db;
  race_a : ResolverPc;
  race_b : ResolverPc
}.

Definition pair_rows (u : User) (td : TutorData) (d : Db) : list Conversation :=
  filter (same_pair (user_id u) (td_id td)) (db_conversations d).

Definition is_finished (pc : ResolverPc) : bool :=
  match pc with Finished _ => true | _ => false end.

Section Racing.
Context {E : QueryEngine}.
Variable sch : Schema.
Variable u : User.
Variable td : TutorData.

Definition race_step (r : Race) (t : Tick) : Race :=
  match tick_tab t with
  | TabA =>
      let '(pc, d) := resolver_step sch (tick_ok t) (tick_now t) u td (race_a r) (race_db r) in
      mkRace d pc (race_b r)
  | TabB =>
      let '(pc, d) := resolver_step sch (tick_ok t) (tick_now t) u td (race_b r) (race_db r) in
      mkRace d (race_a r) pc
  end.

Definition race_run (ts : list Tick) (r : Race) : Race := fold_left race_step ts r.

Definition race_start (d : Db) : Race := mkRace d AtLookup AtLookup.
End Racing.

Definition all_ok (ts : list Tick) : bool := forallb tick_ok ts.

(** ** The fee split of the connect-payment handler *)

Module Payment.
#[local] Set Warnings "-inexact-float".
#[local] Open Scope float_scope.

Definition float_of_Z (z : Z) : float :=
  if (z <? 0)%Z then - of_uint63 (Uint63.of_Z (- z)) else of_uint63 (Uint63.of_Z z).

(** [Math.round] on a binary64 number: the nearest integer, halves going
    up; zeros, infinities, NaN and integers are returned as they are, and a
    result of zero keeps the sign of the argument. *)
Definition Math_round (x : float) : float :=
  match Prim2SF x with
  | S754_finite s m e =>
      if (0 <=? e)%Z then x
      else
        let d := (2 ^ (- e))%Z in
        let n := if s then ((d - 2 * Zpos m) / (2 * d))%Z
                 else ((2 * Zpos m + d) / (2 * d))%Z in
        if (n =? 0)%Z then (if s then -0 else 0) else float_of_Z n
  | _ => x
  end.

Definition platformFeePercent : float := 0.15.

Record Split := mkSplit {
  tutorAmount : float;
  platformFee : float;
  totalAmount : float
}.

Definition payment_calculation (hourlyRate lessonQuantity : float) : Split :=
  let tutorAmount := Math_round (hourlyRate * lessonQuantity * 100 * (1 - platformFeePercent)) in
  let platformFee := Math_round (hourlyRate * lessonQuantity * 100 * platformFeePercent) in
  let totalAmount := tutorAmount + platformFee in
  mkSplit tutorAmount platformFee totalAmount.

(** The row written to [payments]. *)
Record PaymentRow := mkPaymentRow {
  student_id : uuid;
  tutor_id : uuid;
  amount : float;
  platform_fee : float;
  tutor_amount : float;
  currency : string;
  lesson_quantity : float;
  status : string
}.

Definition payment_row (student tutorId : uuid) (hourlyRate lessonQuantity : float)
    : PaymentRow :=
  let s := payment_calculation hourlyRate lessonQuantity in
  mkPaymentRow student tutorId (totalAmount s) (platformFee s) (tutorAmount s)
    "gbp" lessonQuantity "pending".
End Payment.

(** ** The chat page *)

(** The part of the [Chat] page that drives the hook: the text typed in the
    input box, beside the state of [useChat]. *)
Record ChatPage := mkChatPage {
  page_messageInput : jsstring;
  page_hook : ChatState
}.

(** [handleSendMessage]: the submit handler of the chat form. *)
Definition handleSendMessage (user : option User) (ok : bool) (now : timestamp)
    (p : ChatPage) (b : Backend) : ChatPage * Backend :=
  if negb (truthy (trim (page_messageInput p))) || chat_sending (page_hook p) then (p, b)
  else
    let '(hook, b') := sendMessage user (page_messageInput p) ok now (page_hook p) b in
    (mkChatPage [] hook, b').

(** ** The unread badge of the navigation bar *)

(** The embedded resource [messages (id, created_at, sender_type)]. *)
Record BadgeMessage := mkBadgeMessage {
  bm_id : uuid;
  bm_created_at : timestamp;
  bm_sender_type : SenderType
}.

Definition badge_embed (m : Message) : BadgeMessage :=
  mkBadgeMessage (msg_id m) (msg_created_at m) (msg_sender_type m).

(** [.or('client_id.eq.<id>,tutor_id.eq.<id>')] *)
Definition involves (uid : uuid) (c : Conversation) : bool :=
  ((conv_client_id c =? uid) || (conv_tutor_id c =? uid))%N.

(** The body of the [forEach]: one more for a conversation with a message. *)
Definition count_conversation (totalUnread : nat) (conv : uuid * list BadgeMessage) : nat :=
  if (0 <? List.length (snd conv))%nat then (totalUnread + 1)%nat else totalUnread.

Section Badge.
Context {E : QueryEngine}.

(** [from('conversations').select('id, messages (id, created_at,
    sender_type)').or(..)]: every conversation of the user, with its
    messages, none required. *)
Definition select_badge (uid : uuid) (d : Db) : list (uuid * list BadgeMessage) :=
  map (fun c => (conv_id c,
                 map badge_embed
                   (unordered (filter (in_conversation (conv_id c)) (db_messages d)))))
    (unordered (filter (involves uid) (db_conversations d))).

(** [fetchUnreadCount], run by the effect when a user is signed in: the new
    value of [unreadCount].  A failed request leaves the count as it was. *)
Definition fetchUnreadCount (user : option User) (ok : bool) (unreadCount : nat) (d : Db)
    : nat :=
  match user with
  | None => unreadCount
  | Some u =>
      if ok then fold_left count_conversation (select_badge (user_id u) d) 0%nat
      else unreadCount
  end.
End Badge.

(** ** Objects keyed by strings *)

Module JsObject.

Fixpoint str_eqb (a b : jsstring) : bool :=
  match a, b with
  | [], [] => true
  | x :: a', y :: b' => (x =? y)%N && str_eqb a' b'
  | _, _ => false
  end.

(** An object with string keys: its own properties, in insertion order,
    each key once. *)
Definition obj (V : Type) := list (jsstring * V).

(** [o[k]] *)
Fixpoint get (V : Type) (k : jsstring) (o : obj V) : option V :=
  match o with
  | [] => None
  | (k', v) :: o' => if str_eqb k' k then Some v else get k o'
  end.

(** [{ ...o, [k]: v }] *)
Fixpoint set (V : Type) (k : jsstring) (v : V) (o : obj V) : obj V :=
  match o with
  | [] => [(k, v)]
  | (k', v') :: o' => if str_eqb k' k then (k', v) :: o' else (k', v') :: set k v o'
  end.

(** [delete o[k]] on a copy of [o] *)
Definition delete (V : Type) (k : jsstring) (o : obj V) : obj V :=
  filter (fun kv => negb (str_eqb (fst kv) k)) o.

(** [{ ...a, ...b }] *)
Definition spread (V : Type) (a b : obj V) : obj V :=
  fold_left (fun acc kv => set (fst kv) (snd kv) acc) b a.

Definition keys (V : Type) (o : obj V) : list jsstring := map fst o.

(** [xs.includes(x)] on an array of strings *)
Definition includes (xs : list jsstring) (x : jsstring) : bool := existsb (str_eqb x) xs.

End JsObject.

(** Truthiness of a number: neither zero nor NaN. *)
Definition number_truthy (x : float) : bool :=
  negb (PrimFloat.eqb x 0) && PrimFloat.eqb x x.

(** [a || b] where [a] is a possibly missing number. *)
Definition number_or (a : option float) (b : float) : float :=
  match a with
  | Some x => if number_truthy x then x else b
  | None => b
  end.

(** ** Exam rates: the sign-up form, the profile page, the tutor cards and
    the payment handlers *)

Module Rates.
Import JsObject.
#[local] Open Scope float_scope.

(** The sections of the tutors page; a card's "Buy Lessons" button sends
    the section id as [examType].  For these four ids the look-up in
    [examKeyMap] succeeds, so the [toUpperCase] fallback is not reached. *)
Inductive ExamSection := Tmua | Mat | Esat | InterviewPrep.

Definition section_id (s : ExamSection) : jsstring :=
  match s with
  | Tmua => of_string "tmua"
  | Mat => of_string "mat"
  | Esat => of_string "esat"
  | InterviewPrep => of_string "interview-prep"
  end.

(** [examKeyMap[sectionId]]: the key the sign-up form stores the rate under. *)
Definition examKeyMap (s : ExamSection) : jsstring :=
  match s with
  | Tmua => of_string "TMUA"
  | Mat => of_string "MAT"
  | Esat => of_string "ESAT"
  | InterviewPrep => of_string "Interview prep"
  end.

(** [profile.exam_rates || {}] *)
Definition or_empty (exam_rates : option (obj float)) : obj float :=
  match exam_rates with Some o => o | None => [] end.

(** The rate both payment handlers charge: the tutor's rate under the
    sign-up key if it is truthy, 30 otherwise. *)
Definition hourlyRate (exam_rates : option (obj float)) (s : ExamSection) : float :=
  let examRates := or_empty exam_rates in
  let rateKey := examKeyMap s in
  match get rateKey examRates with
  | Some r => if number_truthy r then r else 30
  | None => 30
  end.

(** [getExamSpecificRate] of the tutors page, before formatting:
    [rates[examKey] || rates[sectionId] || 30]. *)
Definition getExamSpecificRate (exam_rates : option (obj float)) (s : ExamSection) : float :=
  let rates := or_empty exam_rates in
  let examKey := examKeyMap s in
  number_or (get examKey rates) (number_or (get (section_id s) rates) 30).

(** The line item both handlers send to the checkout. *)
Record LineItem := mkLineItem {
  unit_amount : float;
  quantity : float
}.

Definition line_item (hourlyRate lessonQuantity : float) : LineItem :=
  mkLineItem (hourlyRate * 100) lessonQuantity.

(** [totalAmount] of the plain payment handler, stored as [amount]. *)
Definition plain_totalAmount (hourlyRate lessonQuantity : float) : float :=
  hourlyRate * lessonQuantity * 100.

(** The rates the profile page starts from. *)
Definition default_exam_rates : obj float :=
  [ (of_string "TMUA", 30); (of_string "MAT", 30); (of_string "ESAT", 30);
    (of_string "interview-prep", 35) ].

(** [formData.exam_rates] as [fetchProfile] and [cancelEdit] compute it from
    the stored [exam_rates] ([None]: null or not an object). *)
Definition form_exam_rates (exam_rates : option (obj float)) : obj float :=
  match exam_rates with
  | Some stored => spread default_exam_rates stored
  | None => default_exam_rates
  end.

(** [exam_rates] as [saveProfile] writes it: [formData.exam_rates || null]. *)
Definition saved_exam_rates (formData_exam_rates : obj float) : option (obj float) :=
  Some formData_exam_rates.

End Rates.

(** ** The exam selection of the sign-up form *)

Module Signup.
Import JsObject.
#[local] Open Scope float_scope.

Inductive UserType := Student | Tutor.

(** The form values the handlers below write with [form.setValue]. *)
Record FormValues := mkFormValues {
  userType : option UserType;
  firstName : jsstring;
  university : option jsstring;
  degree : option jsstring;
  year : option jsstring;
  exams : list jsstring;
  examRates : obj float
}.

Record SignupState := mkSignup {
  selectedUserType : option UserType;
  selectedExams : list jsstring;
  rates : obj float;
  form : FormValues
}.

Definition set_form_exams (newExams : list jsstring) (newRates : obj float)
    (f : FormValues) : FormValues :=
  mkFormValues (userType f) (firstName f) (university f) (degree f) (year f)
    newExams newRates.

Definition handleUserTypeSelect (type : UserType) (st : SignupState) : SignupState :=
  match type with
  | Student =>
      mkSignup (Some Student) [] []
        (mkFormValues (Some Student) [] None None None [] [])
  | Tutor =>
      mkSignup (Some Tutor) (selectedExams st) (rates st)
        (mkFormValues (Some Tutor) (firstName (form st)) (university (form st))
           (degree (form st)) (year (form st)) (exams (form st)) (examRates (form st)))
  end.

Definition addExam (exam : jsstring) (st : SignupState) : SignupState :=
  if negb (includes (selectedExams st) exam) then
    let newExams := selectedExams st ++ [exam] in
    let newRates := set exam 25 (rates st) in
    mkSignup (selectedUserType st) newExams newRates
      (set_form_exams newExams newRates (form st))
  else st.

Definition removeExam (exam : jsstring) (st : SignupState) : SignupState :=
  let newExams := filter (fun e => negb (str_eqb e exam)) (selectedExams st) in
  let newRates := delete exam (rates st) in
  mkSignup (selectedUserType st) newExams newRates
    (set_form_exams newExams newRates (form st)).

Definition updateExamRate (exam : jsstring) (rate : float) (st : SignupState) : SignupState :=
  let newRates := set exam rate (rates st) in
  mkSignup (selectedUserType st) (selectedExams st) newRates
    (set_form_exams (exams (form st)) newRates (form st)).

(** What the user can do to the exam selection. *)
Inductive Action :=
| SelectType (type : UserType)
| Add (exam : jsstring)
| Remove (exam : jsstring)
| Update (exam : jsstring) (rate : float).

Definition act (st : SignupState) (a : Action) : SignupState :=
  match a with
  | SelectType type => handleUserTypeSelect type st
  | Add exam => addExam exam st
  | Remove exam => removeExam exam st
  | Update exam rate => updateExamRate exam rate st
  end.

(** The constant [exams]: what the "Exams You Can Teach" select offers. *)
Definition offered_exams : list jsstring :=
  [ of_string "TMUA"; of_string "MAT"; of_string "ESAT"; of_string "Interview prep" ].

(** The form as [useForm] and [useState] initialise it. *)
Definition initial : SignupState :=
  mkSignup None [] [] (mkFormValues None [] None None None [] []).

End Signup.

(** * Vocabulary of the properties *)

(** ** Sample data *)

Module Sample.
Definition alice : User :=
  mkUser 10 (Some (of_string "alice@example.org")) None.
Definition bob : TutorData := mkTutorData 20 (of_string "Bob").

Definition empty_db : Db := mkDb [] [] 0.

(** The conversation Alice's first visit of Bob's page creates at time
    100. *)
Definition thread : Conversation :=
  mkConversation 0 10 20 (of_string "Bob") (of_string "alice")
    (Some (of_string "alice@example.org")) 100 100.

Definition db1 : Db := mkDb [thread] [] 1.
Definition backend1 : Backend := mkBackend db1 [] 0 [].

Definition chat1 : ChatState := mkChat (Some thread) [] false false [].

Definition inbox_typing (text : jsstring) : InboxState :=
  mkInbox [] (Some (mkSummary thread None 0)) [] text false false [].

Definition spaces : jsstring := of_string "   ".
Definition hello : jsstring := of_string "Hello".
End Sample.

(** Two messages of one conversation stamped with the same [created_at]. *)
Definition tied_db : Db :=
  fst (insert_message true 5 0 (of_string "second") client
         (fst (insert_message true 5 0 (of_string "first") client Sample.db1))).

(** A tutor with two conversations, each holding one client message, the
    second one updated later, and a third conversation without messages. *)
Definition inbox_db : Db :=
  mkDb [ mkConversation 0 10 20 (of_string "Bob") (of_string "alice") None 100 150;
         mkConversation 1 11 20 (of_string "Bob") (of_string "carol") None 110 170;
         mkConversation 2 12 20 (of_string "Bob") (of_string "dave") None 120 120 ]
       [ mkMessage 3 (of_string "Hi") client 150 0;
         mkMessage 4 (of_string "Hello") client 170 1 ]
       5.

(** Alice's page is open on the conversation; then Alice sends "Hello", the
    tutor opens the conversation in the inbox and replies, closes it again,
    and Alice sends a blank line and a second message. *)
Definition sample_history : list Op :=
  [ SendMessage (Some Sample.alice) Sample.hello true 200 Sample.chat1;
    InboxEffect true (Sample.inbox_typing []);
    SendReply true true 210 211 (Sample.inbox_typing (of_string " Hi there "));
    Cleanup 1;
    SendMessage (Some Sample.alice) Sample.spaces true 220 Sample.chat1;
    SendMessage (Some Sample.alice) (of_string "Are you there?") true 230 Sample.chat1 ].

(** A tutor (20) with two conversations: the first, updated at 150, holds a
    message of its client (10); the second, updated later at 170, has no
    message yet. *)
Definition quiet_thread_db : Db :=
  mkDb [ mkConversation 0 10 20 (of_string "Bob") (of_string "alice") None 100 150;
         mkConversation 1 11 20 (of_string "Bob") (of_string "carol") None 160 170 ]
       [ mkMessage 2 (of_string "Hi") client 150 0 ]
       3.

(** Both tabs look the pair up before either inserts. *)
Definition overlapping : list Tick :=
  [ mkTick TabA true 100; mkTick TabB true 101;
    mkTick TabA true 102; mkTick TabB true 103 ].

(** ** Predicates *)

(** An error was shown: the list of toasts is not what it was. *)
Definition shows_error (before after : list Toast) : Prop := after <> before.

(** Non-decreasing, and increasing, in [created_at]. *)
Definition ascending (ms : list Message) : Prop :=
  StronglySorted (fun a b => (msg_created_at a <= msg_created_at b)%Z) ms.

Definition strictly_ascending (ms : list Message) : Prop :=
  StronglySorted (fun a b => (msg_created_at a < msg_created_at b)%Z) ms.

(** The rows of a conversation in the order they were inserted. *)
Definition in_insertion_order (cid : uuid) (d : Db) : list Message :=
  filter (in_conversation cid) (db_messages d).

(** Non-increasing in [updated_at]. *)
Definition most_recent_first (l : list ConversationSummary) : Prop :=
  StronglySorted
    (fun a b => (conv_updated_at (sum_conversation b)
                 <= conv_updated_at (sum_conversation a))%Z) l.

(** The messages of conversation [c] authored by the client. *)
Definition client_messages (d : Db) (c : Conversation) : list Message :=
  filter (fun m => in_conversation (conv_id c) m && SenderType_eqb (msg_sender_type m) client)
    (db_messages d).

Definition has_message (d : Db) (c : Conversation) : bool :=
  existsb (in_conversation (conv_id c)) (db_messages d).

(** The conversations the inbox query keeps. *)
Definition inbox_rows (userId : uuid) (d : Db) : list Conversation :=
  filter (fun c => (conv_tutor_id c =? userId)%N && has_message d c) (db_conversations d).

(** What one call can do to the part of the backend the channels see. *)
Inductive Moves (o : Op) (b b' : Backend) : Prop :=
| moves_quiet :
    be_channels b' = be_channels b -> be_next_handle b' = be_next_handle b ->
    be_callbacks b' = be_callbacks b ->
    db_messages (be_db b') = db_messages (be_db b) ->
    Moves o b b'
| moves_opened (topic : string * uuid) (cid : uuid) :
    be_channels b' = be_channels b ++ [mkChannel (be_next_handle b) topic cid] ->
    be_next_handle b' = N.succ (be_next_handle b) ->
    be_callbacks b' = be_callbacks b ->
    db_messages (be_db b') = db_messages (be_db b) ->
    Moves o b b'
| moves_closed (h : N) :
    o = Cleanup h ->
    be_channels b' = filter (fun ch => negb (ch_handle ch =? h)%N) (be_channels b) ->
    be_next_handle b' = be_next_handle b ->
    be_callbacks b' = be_callbacks b ->
    db_messages (be_db b') = db_messages (be_db b) ->
    Moves o b b'
| moves_stored (row : Message) :
    be_channels b' = be_channels b -> be_next_handle b' = be_next_handle b ->
    be_callbacks b' = be_callbacks b ++ notify row (be_channels b) ->
    db_messages (be_db b') = db_messages (be_db b) ++ [row] ->
    Moves o b b'.

Definition is_handle (h : N) (ch : Channel) : bool := (ch_handle ch =? h)%N.

(** Handle [h] names exactly one open channel, and it filters on [cid]. *)
Definition open_on (h : N) (cid : uuid) (b : Backend) : Prop :=
  map ch_filter (filter (is_handle h) (be_channels b)) = [cid].

(** No open channel carries handle [h]. *)
Definition released (h : N) (b : Backend) : Prop :=
  filter (is_handle h) (be_channels b) = [].

Definition keeps_open (h : N) (ops : list Op) : bool :=
  forallb (fun o => negb (releases h o)) ops.

(** Some call has returned. *)
Definition some_finished (r : Race) : bool :=
  is_finished (race_a r) || is_finished (race_b r).

(** ** Predicates for the remaining code *)

(** A string as [trim] leaves it when something is left: not empty, and
    neither its first nor its last code unit is white space. *)
Definition well_trimmed (s : jsstring) : bool :=
  match s with
  | [] => false
  | c :: _ => negb (isWhiteSpace c) && negb (isWhiteSpace (last s c))
  end.

Definition tidy (m : Message) : bool := well_trimmed (msg_content m).

(** Everything of a conversation row except [updated_at]. *)
Definition conv_identity (c : Conversation)
    : uuid * uuid * uuid * jsstring * jsstring * option jsstring * timestamp :=
  (conv_id c, conv_client_id c, conv_tutor_id c, conv_tutor_name c, conv_client_name c,
   conv_client_email c, conv_created_at c).

(** The row a call writes, when it writes one. *)
Definition writes (o : Op) (row : Message) : Prop :=
  match o with
  | SendMessage _ content _ now st =>
      msg_content row = trim content /\ msg_sender_type row = client
      /\ msg_created_at row = now
      /\ option_map conv_id (chat_conversation st) = Some (msg_conversation_id row)
  | SendReply _ _ now _ st =>
      msg_content row = trim (inbox_newMessage st) /\ msg_sender_type row = tutor
      /\ msg_created_at row = now
      /\ option_map (fun s => conv_id (sum_conversation s)) (inbox_selectedConversation st)
         = Some (msg_conversation_id row)
  | _ => False
  end.

(** Whether [sendMessage], or [sendReply], gets as far as its insert request. *)
Definition send_attempted (user : option User) (content : jsstring) (st : ChatState) : bool :=
  match chat_conversation st, user with
  | Some _, Some _ => negb (blank content)
  | _, _ => false
  end.

Definition reply_attempted (st : InboxState) : bool :=
  match inbox_selectedConversation st with
  | Some _ => negb (blank (inbox_newMessage st)) && negb (inbox_sending st)
  | None => false
  end.

(** The conversations the navigation badge counts: those the user takes
    part in, as client or as tutor, that have a message. *)
Definition badge_rows (uid : uuid) (d : Db) : list Conversation :=
  filter (fun c => involves uid c && has_message d c) (db_conversations d).

(** What the sign-up form keeps true of its exam selection: no exam twice,
    a rate for every selected exam, and the form values equal to the
    component state. *)
Definition signup_consistent (st : Signup.SignupState) : Prop :=
  NoDup (Signup.selectedExams st)
  /\ (forall e, In e (Signup.selectedExams st) ->
                exists r, JsObject.get e (Signup.rates st) = Some r)
  /\ Signup.exams (Signup.form st) = Signup.selectedExams st
  /\ Signup.examRates (Signup.form st) = Signup.rates st.

(** The object has a truthy rate under the key. *)
Definition has_rate (k : jsstring) (o : JsObject.obj float) : bool :=
  match JsObject.get k o with
  | Some r => number_truthy r
  | None => false
  end.

(** The key the profile page keeps its interview rate under. *)
Definition profile_interview_key : jsstring := of_string "interview-prep".

(** A whole number as a JavaScript number. *)
Definition whole (n : N) : float := Payment.float_of_Z (Z.of_N n).

(** For a rate of [h] pounds and [q] lessons: the connect handler's split is
    85, 15 and 100 times [h * q] pence, the plain handler's amount is 100
    times [h * q], and the unit amount of the line item is 100 times [h]. *)
Definition split_is_exact (h q : N) : bool :=
  let s := Payment.payment_calculation (whole h) (whole q) in
  PrimFloat.Leibniz.eqb (Payment.tutorAmount s) (whole (85 * h * q))
  && PrimFloat.Leibniz.eqb (Payment.platformFee s) (whole (15 * h * q))
  && PrimFloat.Leibniz.eqb (Payment.totalAmount s) (whole (100 * h * q))
  && PrimFloat.Leibniz.eqb (Rates.plain_totalAmount (whole h) (whole q)) (whole (100 * h * q))
  && PrimFloat.Leibniz.eqb (Rates.unit_amount (Rates.line_item (whole h) (whole q)))
       (whole (100 * h)).

Definition upto (n : N) : list N := map N.of_nat (seq 1 (N.to_nat n)).

Definition all_exact (rates lessons : N) : bool :=
  forallb (fun h => forallb (split_is_exact h) (upto lessons)) (upto rates).

(** * Properties *)

(** ** Trimming *)

Module JsFacts.

Lemma trimStart_blank (s : jsstring) : blank s = true -> trimStart s = [].
Proof.
  induction s as [|c s IH]; simpl; [reflexivity|].
  intros H. apply andb_true_iff in H as [Hc Hs].
  rewrite Hc. now apply IH.
Qed.

Lemma trimStart_nil_blank (s : jsstring) : trimStart s = [] -> blank s = true.
Proof.
  induction s as [|c s IH]; simpl; [reflexivity|].
  destruct (isWhiteSpace c); [intros H; now rewrite IH | discriminate].
Qed.

Lemma blank_rev (s : jsstring) : blank (rev s) = blank s.
Proof.
  unfold blank. induction s as [|c s IH]; simpl; [reflexivity|].
  rewrite forallb_app, IH. simpl. rewrite andb_true_r. apply andb_comm.
Qed.

(** What is left after [trimStart] is empty or starts with a code unit
    that is not white space. *)
Lemma trimStart_blank_nil (s : jsstring) :
  blank (trimStart s) = true -> trimStart s = [].
Proof.
  induction s as [|c s IH]; simpl; [reflexivity|].
  destruct (isWhiteSpace c) eqn:Hc; [exact IH|].
  simpl. rewrite Hc. discriminate.
Qed.

Lemma trim_blank (s : jsstring) : blank s = true -> trim s = [].
Proof.
  intros H. unfold trim, trimEnd. now rewrite (trimStart_blank s H).
Qed.

Lemma trim_nil_blank (s : jsstring) : trim s = [] -> blank s = true.
Proof.
  unfold trim, trimEnd. intros H.
  apply (f_equal (@rev N)) in H. rewrite rev_involutive in H. simpl in H.
  apply trimStart_nil_blank in H. rewrite blank_rev in H.
  apply trimStart_nil_blank. now apply trimStart_blank_nil.
Qed.

Lemma truthy_trim (s : jsstring) : truthy (trim s) = negb (blank s).
Proof.
  destruct (blank s) eqn:Hb.
  - now rewrite (trim_blank s Hb).
  - destruct (trim s) eqn:Ht; [|reflexivity].
    apply trim_nil_blank in Ht. congruence.
Qed.

End JsFacts.

(** ** Sorting by insertion *)

Section SortFacts.
Variable A : Type.
Variable le : A -> A -> bool.
Variable R : A -> A -> Prop.
Hypothesis le_sound : forall a b, le a b = true -> R a b.
Hypothesis le_total : forall a b, le a b = false -> R b a.
Hypothesis R_trans : forall a b c, R a b -> R b c -> R a c.

Lemma insert_sorted_perm (x : A) (l : list A) :
  Permutation (x :: l) (insert_sorted le x l).
Proof.
  induction l as [|y l IH]; simpl; [reflexivity|].
  destruct (le x y); [reflexivity|].
  rewrite perm_swap. now constructor.
Qed.

Lemma sort_by_perm (l : list A) : Permutation l (sort_by le l).
Proof.
  induction l as [|x l IH]; simpl; [reflexivity|].
  rewrite <- insert_sorted_perm. now constructor.
Qed.

Lemma insert_sorted_sorted (x : A) (l : list A) :
  StronglySorted R l -> StronglySorted R (insert_sorted le x l).
Proof.
  induction 1 as [|y l Hs IH Hy]; simpl.
  - constructor; constructor.
  - destruct (le x y) eqn:Hxy.
    + constructor; [now constructor|].
      constructor; [now apply le_sound|].
      eapply Forall_impl; [|exact Hy].
      intros z Hz. eapply R_trans; [apply le_sound; exact Hxy | exact Hz].
    + constructor; [exact IH|].
      eapply Permutation_Forall; [apply insert_sorted_perm|].
      constructor; [now apply le_total | exact Hy].
Qed.

Lemma sort_by_sorted (l : list A) : StronglySorted R (sort_by le l).
Proof.
  induction l as [|x l IH]; simpl; [constructor|].
  now apply insert_sorted_sorted.
Qed.
End SortFacts.

Lemma stable_order_by_perm (A : Type) (key : A -> timestamp) asc (l : list A) :
  Permutation l (stable_order_by key asc l).
Proof. apply sort_by_perm. Qed.

Lemma stable_order_by_asc (A : Type) (key : A -> timestamp) (l : list A) :
  StronglySorted (fun a b => (key a <= key b)%Z) (stable_order_by key true l).
Proof.
  apply sort_by_sorted; unfold key_le; intros.
  - now apply Z.leb_le.
  - apply Z.leb_gt in H. lia.
  - lia.
Qed.

Lemma stable_order_by_desc (A : Type) (key : A -> timestamp) (l : list A) :
  StronglySorted (fun a b => (key b <= key a)%Z) (stable_order_by key false l).
Proof.
  apply sort_by_sorted; unfold key_le; intros.
  - now apply Z.leb_le.
  - apply Z.leb_gt in H. lia.
  - lia.
Qed.

(** A store that keeps rows with equal keys in table order. *)
Definition stable_engine : QueryEngine :=
  {| order_by := stable_order_by;
     unordered := fun A l => l;
     order_by_perm := stable_order_by_perm;
     order_by_asc := stable_order_by_asc;
     order_by_desc := stable_order_by_desc;
     unordered_perm := fun A l => Permutation_refl l |}.

(** A store that returns rows with equal keys, and unordered selections,
    last row first. *)
Definition reversing_engine : QueryEngine :=
  {| order_by := reversing_order_by;
     unordered := fun A l => rev l;
     order_by_perm := fun A key asc l =>
       perm_trans (Permutation_rev l) (stable_order_by_perm key asc (rev l));
     order_by_asc := fun A key l => stable_order_by_asc key (rev l);
     order_by_desc := fun A key l => stable_order_by_desc key (rev l);
     unordered_perm := fun A l => Permutation_rev l |}.

(** ** The sample conversation *)

(** It is the row the resolver creates for Alice and Bob on an empty store. *)
Lemma sample_thread_is_created :
  initializeConversation (E := stable_engine) (mkSchema true) (Some Sample.alice) Sample.bob
    true true 100 (mkChat None [] false false []) Sample.empty_db
  = (Sample.chat1, Sample.db1, Some Sample.thread).
Proof. reflexivity. Qed.

(** ** Appending a message *)

Lemma append_message_db (ok : bool) now cid content sender (b : Backend) :
  be_db (fst (append_message ok now cid content sender b))
  = fst (insert_message ok now cid content sender (be_db b)).
Proof.
  unfold append_message, insert_message. destruct ok; reflexivity.
Qed.

Lemma insert_message_conversations (ok : bool) now cid content sender (d : Db) :
  db_conversations (fst (insert_message ok now cid content sender d)) = db_conversations d.
Proof. unfold insert_message. destruct ok; reflexivity. Qed.

(** The client path issues one request, the insert, and nothing else: the
    [conversations] table is the same before and after. *)
Lemma sendMessage_conversations_unchanged
    (user : option User) content (ok : bool) now (st : ChatState) (b : Backend) :
  db_conversations (be_db (snd (sendMessage user content ok now st b)))
  = db_conversations (be_db b).
Proof.
  unfold sendMessage.
  destruct (chat_conversation st) as [c|]; [|reflexivity].
  destruct user as [u|]; [|reflexivity].
  destruct (negb (truthy (trim content))); [reflexivity|].
  pose proof (append_message_db ok now (conv_id c) (trim content) client b) as Hdb.
  destruct (append_message ok now (conv_id c) (trim content) client b) as [b' [row|]];
    simpl in *; rewrite Hdb; apply insert_message_conversations.
Qed.

(** The tutor path: once the insert has succeeded the message row is stored
    whether or not the [updated_at] request goes through, and no error is
    shown for a failed [updated_at] request. *)
Lemma sendReply_update_is_best_effort
    (ok_update : bool) now client_now (st : InboxState) (b : Backend)
    (sel : ConversationSummary) :
  inbox_selectedConversation st = Some sel ->
  blank (inbox_newMessage st) = false ->
  inbox_sending st = false ->
  let out := sendReply true ok_update now client_now st b in
  db_messages (be_db (snd out))
  = db_messages (be_db b)
      ++ [mkMessage (db_next_uuid (be_db b)) (trim (inbox_newMessage st)) tutor now
            (conv_id (sum_conversation sel))]
  /\ inbox_toasts (fst out) = inbox_toasts st
  /\ db_conversations (be_db (snd out))
     = if ok_update
       then map (touch client_now (conv_id (sum_conversation sel))) (db_conversations (be_db b))
       else db_conversations (be_db b).
Proof.
  intros Hsel Hblank Hsending. unfold sendReply.
  rewrite Hsel, JsFacts.truthy_trim, Hblank, Hsending. simpl.
  destruct ok_update; simpl; auto.
Qed.

(** C2, as stated, fails: sending three spaces from an open conversation
    raises no error at all; the call returns with the hook state, toasts
    included, exactly as it was. *)
Lemma C2_blank_send_shows_no_error :
  blank Sample.spaces = true
  /\ ~ shows_error (chat_toasts Sample.chat1)
         (chat_toasts (fst (sendMessage (Some Sample.alice) Sample.spaces true 200
                              Sample.chat1 Sample.backend1)))
  /\ ~ shows_error (inbox_toasts (Sample.inbox_typing Sample.spaces))
         (inbox_toasts (fst (sendReply true true 200 201
                              (Sample.inbox_typing Sample.spaces) Sample.backend1))).
Proof.
  split; [reflexivity|]. split; intros H; apply H; reflexivity.
Qed.

(** C2, amended: for every empty or whitespace-only string, [sendMessage]
    called with it and [sendReply] called on it as the typed reply return
    before any request: the component state (toasts included) and the
    backend (tables, channels, callback log) are returned unchanged, so no
    message row is inserted and no error is raised. *)
Theorem C2_blank_content_is_ignored
    (user : option User) (content : jsstring) (ok ok_update : bool)
    (now client_now : timestamp) (st : ChatState) (ist : InboxState) (b : Backend) :
  blank content = true ->
  sendMessage user content ok now st b = (st, b)
  /\ sendReply ok ok_update now client_now (inbox_set_newMessage content ist) b
     = (inbox_set_newMessage content ist, b).
Proof.
  intros Hblank. split.
  - unfold sendMessage.
    destruct (chat_conversation st); [|reflexivity].
    destruct user; [|reflexivity].
    now rewrite JsFacts.truthy_trim, Hblank.
  - unfold sendReply.
    destruct (inbox_selectedConversation (inbox_set_newMessage content ist)); [|reflexivity].
    simpl. now rewrite JsFacts.truthy_trim, Hblank.
Qed.

Lemma C2_blank_content_is_ignored_witness :
  sendMessage (Some Sample.alice) Sample.spaces true 200 Sample.chat1 Sample.backend1
  = (Sample.chat1, Sample.backend1)
  /\ sendReply true true 200 201
       (inbox_set_newMessage Sample.spaces (Sample.inbox_typing [])) Sample.backend1
     = (inbox_set_newMessage Sample.spaces (Sample.inbox_typing []), Sample.backend1).
Proof.
  apply (C2_blank_content_is_ignored (Some Sample.alice) Sample.spaces true true 200 201
           Sample.chat1 (Sample.inbox_typing []) Sample.backend1).
  reflexivity.
Defined.

(** C3 at a failing input.  Alice (the client) sends "Hello" at time 200 in
    a conversation last updated at 100: the message row is stored and the
    conversation's [updated_at] is still 100.  The tutor sending the same
    text through [sendReply] moves it to the time of the reply. *)
Theorem C3_client_append_keeps_updated_at :
  let after_client :=
    snd (sendMessage (Some Sample.alice) Sample.hello true 200 Sample.chat1 Sample.backend1) in
  let after_tutor :=
    snd (sendReply true true 200 201 (Sample.inbox_typing Sample.hello) Sample.backend1) in
  db_messages (be_db after_client) = [mkMessage 1 Sample.hello client 200 0]
  /\ map conv_updated_at (db_conversations (be_db after_client)) = [100%Z]
  /\ db_messages (be_db after_tutor) = [mkMessage 1 Sample.hello tutor 200 0]
  /\ map conv_updated_at (db_conversations (be_db after_tutor)) = [201%Z].
Proof. repeat split. Qed.

(** ** Listing the messages of a conversation *)

(** A list sorted on distinct keys has one sorted arrangement only. *)
Lemma sorted_perm_unique (l l' : list Message) :
  strictly_ascending l -> ascending l' -> Permutation l l' -> l = l'.
Proof.
  intros Hl. revert l'.
  induction Hl as [|x t Ht IH Hx]; intros l' Hl' Hp.
  - now apply Permutation_nil in Hp.
  - destruct l' as [|y t']; [now apply Permutation_sym, Permutation_nil in Hp|].
    inversion Hl' as [|? ? Ht' Hy]; subst.
    assert (Hxy : x = y).
    { assert (Hin : In y (x :: t)) by (eapply Permutation_in; [symmetry; exact Hp | now left]).
      destruct Hin as [Heq|Hin]; [exact Heq|].
      assert (Hin' : In x (y :: t')) by (eapply Permutation_in; [exact Hp | now left]).
      destruct Hin' as [Heq|Hin']; [now symmetry|].
      rewrite Forall_forall in Hx, Hy.
      specialize (Hx y Hin). specialize (Hy x Hin'). lia. }
    subst y. f_equal. apply IH; [exact Ht'|].
    eapply Permutation_cons_inv; exact Hp.
Qed.

Section Listing.
Context {E : QueryEngine}.

Lemma select_messages_ascending (cid : uuid) (d : Db) :
  ascending (select_messages cid d).
Proof. apply order_by_asc. Qed.

Lemma select_messages_perm (cid : uuid) (d : Db) :
  Permutation (in_insertion_order cid d) (select_messages cid d).
Proof. apply order_by_perm. Qed.

Lemma select_messages_empty (cid : uuid) (d : Db) :
  in_insertion_order cid d = [] -> select_messages cid d = [].
Proof.
  intros H. apply Permutation_nil. rewrite <- H. apply select_messages_perm.
Qed.
End Listing.

(** C4, as stated, fails on the tie-break: the query orders on [created_at]
    alone, and a store that honours that ordering may return two messages with
    the same [created_at] in the reverse of their insertion order. *)
Lemma C4_ties_not_in_insertion_order :
  map msg_content (in_insertion_order 0 tied_db) = [of_string "first"; of_string "second"]
  /\ map msg_created_at (in_insertion_order 0 tied_db) = [5%Z; 5%Z]
  /\ map msg_content
       (chat_messages (chat_loadMessages (E := reversing_engine) true 0 Sample.chat1 tied_db))
     = [of_string "second"; of_string "first"]
  /\ map msg_content
       (inbox_messages (inbox_loadMessages (E := reversing_engine) true 0
                          (Sample.inbox_typing []) tied_db))
     = [of_string "second"; of_string "first"].
Proof. repeat split. Qed.

(** C4, amended: a successful [loadMessages] (hook or inbox) sets the
    transcript to the messages of the conversation, each exactly once, in
    non-decreasing [created_at] order; when the stored [created_at] values of
    the conversation strictly increase in insertion order the transcript is
    in insertion order; a conversation without messages gives the empty
    transcript and no error toast.  Nothing is said about the relative
    order of messages with equal [created_at]. *)
Theorem C4_loadMessages_ascending
    (E : QueryEngine) (cid : uuid) (st : ChatState) (ist : InboxState) (d : Db) :
  let loaded := chat_messages (chat_loadMessages true cid st d) in
  inbox_messages (inbox_loadMessages true cid ist d) = loaded
  /\ ascending loaded
  /\ Permutation (in_insertion_order cid d) loaded
  /\ (strictly_ascending (in_insertion_order cid d) -> loaded = in_insertion_order cid d)
  /\ (in_insertion_order cid d = [] ->
      loaded = []
      /\ chat_toasts (chat_loadMessages true cid st d) = chat_toasts st
      /\ inbox_toasts (inbox_loadMessages true cid ist d) = inbox_toasts ist).
Proof.
  simpl. split; [reflexivity|].
  split; [apply select_messages_ascending|].
  split; [apply select_messages_perm|].
  split.
  - intros Hs. symmetry.
    apply sorted_perm_unique;
      [exact Hs | apply select_messages_ascending | apply select_messages_perm].
  - intros Hnil. split; [now apply select_messages_empty|]. split; reflexivity.
Qed.

(** ** The inbox listing *)

Lemma StronglySorted_map (A B : Type) (f : A -> B) (R : B -> B -> Prop) (l : list A) :
  StronglySorted (fun a b => R (f a) (f b)) l -> StronglySorted R (map f l).
Proof.
  induction 1 as [|x l Hs IH Hx]; simpl; constructor; [exact IH|].
  rewrite Forall_forall in *. intros y Hy.
  apply in_map_iff in Hy as [z [<- Hz]]. now apply Hx.
Qed.

Lemma filter_length_perm (A : Type) (f : A -> bool) (l l' : list A) :
  Permutation l l' -> List.length (filter f l) = List.length (filter f l').
Proof.
  induction 1 as [|x l l' Hp IH|x y l|l l' l'' Hp1 IH1 Hp2 IH2]; simpl.
  - reflexivity.
  - destruct (f x); simpl; congruence.
  - destruct (f x), (f y); reflexivity.
  - congruence.
Qed.

Lemma filter_map_length (A B : Type) (g : A -> B) (f : B -> bool) (l : list A) :
  List.length (filter f (map g l)) = List.length (filter (fun a => f (g a)) l).
Proof.
  induction l as [|a l IH]; simpl; [reflexivity|].
  destruct (f (g a)); simpl; congruence.
Qed.

Lemma filter_and (A : Type) (f g : A -> bool) (l : list A) :
  filter g (filter f l) = filter (fun a => f a && g a) l.
Proof.
  induction l as [|a l IH]; simpl; [reflexivity|].
  destruct (f a); simpl; [destruct (g a)|]; congruence.
Qed.

(** In a list sorted by a relation, an element that is not related to
    another one present stands after it. *)
Lemma sorted_places_before (A : Type) (R : A -> A -> Prop) (l : list A) (a b : A) :
  StronglySorted R l -> In a l -> In b l -> ~ R a b -> a <> b ->
  exists l1 l2 l3, l = l1 ++ b :: l2 ++ a :: l3.
Proof.
  intros Hs Ha Hb Hn Hne.
  induction Hs as [|x l Hs IH Hx].
  - contradiction.
  - destruct Hb as [->|Hb].
    + destruct Ha as [Ha|Ha]; [congruence|].
      apply in_split in Ha as [l2 [l3 ->]]. now exists [], l2, l3.
    + destruct Ha as [->|Ha].
      * rewrite Forall_forall in Hx. elim Hn. now apply Hx.
      * destruct (IH Ha Hb) as [l1 [l2 [l3 ->]]]. now exists (x :: l1), l2, l3.
Qed.

Lemma sum_conversation_summarise (row : Conversation * list EmbeddedMessage) :
  sum_conversation (summarise row) = fst row.
Proof. now destruct row. Qed.

Lemma sum_unread_count_summarise (row : Conversation * list EmbeddedMessage) :
  sum_unread_count (summarise row) = List.length (filter authored_by_client (snd row)).
Proof.
  destruct row as [c ms]. simpl.
  destruct (List.length (filter authored_by_client ms)); reflexivity.
Qed.

Section InboxFacts.
Context {E : QueryEngine}.

Lemma processedConvos_conversations (userId : uuid) (d : Db) :
  map sum_conversation (processedConvos userId d)
  = order_by conv_updated_at false (inbox_rows userId d).
Proof.
  unfold processedConvos, select_inbox. rewrite !map_map.
  rewrite (map_ext _ (fun c => c)); [apply map_id|].
  intros c. apply sum_conversation_summarise.
Qed.

Lemma processedConvos_listed (userId : uuid) (d : Db) (c : Conversation) :
  In c (map sum_conversation (processedConvos userId d))
  <-> In c (db_conversations d) /\ conv_tutor_id c = userId /\ has_message d c = true.
Proof.
  rewrite processedConvos_conversations.
  assert (Hp := order_by_perm conv_updated_at false (inbox_rows userId d)).
  split.
  - intros H. apply (Permutation_in _ (Permutation_sym Hp)) in H.
    apply filter_In in H as [Hin Hc]. apply andb_true_iff in Hc as [Ht Hm].
    apply N.eqb_eq in Ht. auto.
  - intros [Hin [Ht Hm]]. apply (Permutation_in _ Hp).
    apply filter_In. split; [exact Hin|].
    apply andb_true_iff. split; [now apply N.eqb_eq | exact Hm].
Qed.

Lemma processedConvos_sorted (userId : uuid) (d : Db) :
  most_recent_first (processedConvos userId d).
Proof.
  unfold most_recent_first, processedConvos, select_inbox. rewrite map_map.
  apply StronglySorted_map.
  exact (order_by_desc conv_updated_at (inbox_rows userId d)).
Qed.

Lemma processedConvos_unread (userId : uuid) (d : Db) :
  Forall (fun s => sum_unread_count s
                   = List.length (client_messages d (sum_conversation s)))
    (processedConvos userId d).
Proof.
  unfold processedConvos, select_inbox. rewrite map_map.
  apply Forall_forall. intros s Hs.
  apply in_map_iff in Hs as [c [<- _]].
  rewrite sum_unread_count_summarise, sum_conversation_summarise. simpl.
  unfold embedded_messages, client_messages.
  rewrite filter_map_length.
  rewrite <- (filter_length_perm _ (unordered_perm (filter (in_conversation (conv_id c))
                                                    (db_messages d)))).
  now rewrite filter_and.
Qed.
End InboxFacts.

(** C5, as stated, fails: the listing is not of "that user's
    conversations".  For the tutor of [quiet_thread_db] the conversation
    updated last is not first, it is not listed at all, having no message;
    and the client of the listed conversation, asking for a listing, gets
    none of the conversations. This holds whatever the store does with row
    order. *)
Lemma C5_recent_thread_without_messages_is_not_listed :
  map (fun c => (conv_id c, conv_updated_at c)) (db_conversations quiet_thread_db)
  = [(0%N, 150%Z); (1%N, 170%Z)]
  /\ (forall E : QueryEngine,
         map (fun s => conv_id (sum_conversation s))
           (inbox_conversations
              (loadConversations (E := E) true 20 (Sample.inbox_typing []) quiet_thread_db))
         = [0%N])
  /\ (forall E : QueryEngine,
         inbox_conversations
           (loadConversations (E := E) true 10 (Sample.inbox_typing []) quiet_thread_db)
         = []).
Proof.
  split; [reflexivity|]. split; intros E; simpl.
  - rewrite <- (map_map sum_conversation conv_id), processedConvos_conversations.
    pose proof (order_by_perm conv_updated_at false (inbox_rows 20 quiet_thread_db)) as Hp.
    change (inbox_rows 20 quiet_thread_db)
      with [mkConversation 0 10 20 (of_string "Bob") (of_string "alice") None 100 150] in *.
    apply Permutation_length_1_inv in Hp. now rewrite Hp.
  - apply (map_eq_nil sum_conversation). rewrite processedConvos_conversations.
    pose proof (order_by_perm conv_updated_at false (inbox_rows 10 quiet_thread_db)) as Hp.
    change (inbox_rows 10 quiet_thread_db) with (@nil Conversation) in Hp.
    now apply Permutation_nil in Hp.
Qed.

(** C5, amended: a successful [loadConversations] for a user lists exactly
    the conversations in which that user is the tutor and that have at least
    one message, each once, in non-increasing [updated_at] order; of two such
    conversations the one updated more recently stands before the other.
    Conversations in which the user is the client, and conversations without
    messages, are not listed. *)
Theorem C5_inbox_lists_tutor_threads_most_recent_first
    (E : QueryEngine) (userId : uuid) (st : InboxState) (d : Db) :
  let listed := inbox_conversations (loadConversations true userId st d) in
  Permutation (inbox_rows userId d) (map sum_conversation listed)
  /\ (forall c : Conversation,
         In c (map sum_conversation listed)
         <-> In c (db_conversations d) /\ conv_tutor_id c = userId /\ has_message d c = true)
  /\ most_recent_first listed
  /\ (forall older newer : Conversation,
         In older (db_conversations d) -> In newer (db_conversations d) ->
         conv_tutor_id older = userId -> conv_tutor_id newer = userId ->
         has_message d older = true -> has_message d newer = true ->
         (conv_updated_at older < conv_updated_at newer)%Z ->
         exists l1 l2 l3, map sum_conversation listed = l1 ++ newer :: l2 ++ older :: l3)
  /\ (forall older newer : ConversationSummary,
         In older listed -> In newer listed ->
         (conv_updated_at (sum_conversation older)
          < conv_updated_at (sum_conversation newer))%Z ->
         exists l1 l2 l3, listed = l1 ++ newer :: l2 ++ older :: l3).
Proof.
  simpl. split; [|split; [|split; [|split]]].
  - rewrite processedConvos_conversations. apply order_by_perm.
  - intros c. apply processedConvos_listed.
  - apply processedConvos_sorted.
  - intros older newer Ho Hn Hto Htn Hmo Hmn Hlt.
    apply sorted_places_before
      with (R := fun a b => (conv_updated_at b <= conv_updated_at a)%Z).
    + rewrite processedConvos_conversations. apply order_by_desc.
    + apply processedConvos_listed. auto.
    + apply processedConvos_listed. auto.
    + lia.
    + intros ->. lia.
  - intros older newer Ho Hn Hlt.
    apply sorted_places_before
      with (R := fun a b => (conv_updated_at (sum_conversation b)
                             <= conv_updated_at (sum_conversation a))%Z);
      [apply processedConvos_sorted | exact Ho | exact Hn | lia | intros ->; lia].
Qed.

(** C6: in a successful listing of a tutor's inbox, the unread count of
    each conversation is the number of stored messages of that conversation
    whose sender is the client; no read marker enters the count. *)
Theorem C6_unread_counts_client_messages
    (E : QueryEngine) (userId : uuid) (st : InboxState) (d : Db) :
  Forall (fun s => sum_unread_count s
                   = List.length (client_messages d (sum_conversation s)))
    (inbox_conversations (loadConversations true userId st d)).
Proof. apply processedConvos_unread. Qed.

(** C9: every conversation of a successful inbox listing has at least one
    stored message, and a conversation without messages is not listed, the
    requesting tutor's own included. *)
Theorem C9_inbox_lists_only_nonempty
    (E : QueryEngine) (userId : uuid) (st : InboxState) (d : Db) :
  let listed := inbox_conversations (loadConversations true userId st d) in
  Forall (fun s => exists m, In m (db_messages d)
                             /\ msg_conversation_id m = conv_id (sum_conversation s)) listed
  /\ forall c : Conversation,
       In c (db_conversations d) -> conv_tutor_id c = userId ->
       in_insertion_order (conv_id c) d = [] ->
       ~ In c (map sum_conversation listed).
Proof.
  simpl. split.
  - apply Forall_forall. intros s Hs.
    assert (Hc : In (sum_conversation s) (map sum_conversation (processedConvos userId d)))
      by now apply in_map.
    apply processedConvos_listed in Hc as [_ [_ Hm]].
    apply existsb_exists in Hm as [m [Hin Hm]].
    exists m. split; [exact Hin | now apply N.eqb_eq].
  - intros c _ _ Hnil Hc.
    apply processedConvos_listed in Hc as [_ [_ Hm]].
    apply existsb_exists in Hm as [m [Hin Hm]].
    assert (Hf : In m (in_insertion_order (conv_id c) d)) by (apply filter_In; auto).
    rewrite Hnil in Hf. contradiction.
Qed.

(** The sample inbox: the conversation updated last comes first whatever the
    store does with ties, and the one without messages is not listed. *)
Lemma inbox_db_listing :
  map (fun s => (conv_id (sum_conversation s), sum_unread_count s))
    (processedConvos (E := stable_engine) 20 inbox_db) = [(1%N, 1%nat); (0%N, 1%nat)]
  /\ map (fun s => (conv_id (sum_conversation s), sum_unread_count s))
       (processedConvos (E := reversing_engine) 20 inbox_db) = [(1%N, 1%nat); (0%N, 1%nat)].
Proof. split; reflexivity. Qed.

(** ** Live updates *)

Lemma append_message_moves (o : Op) (ok : bool) now cid content sender (b : Backend) :
  Moves o b (fst (append_message ok now cid content sender b)).
Proof.
  unfold append_message, insert_message. destruct ok; simpl.
  - now apply moves_stored with (row := mkMessage (db_next_uuid (be_db b)) content sender now cid).
  - now apply moves_quiet.
Qed.

Lemma with_db_update_moves (o : Op) (ok : bool) ts cid (b b' : Backend) :
  Moves o b b' -> Moves o b (with_db (update_updated_at ok ts cid) b').
Proof.
  assert (Hm : db_messages (be_db (with_db (update_updated_at ok ts cid) b'))
               = db_messages (be_db b'))
    by (unfold with_db, update_updated_at; destruct ok; reflexivity).
  intros [? ? ? H|topic c ? ? ? H|h ? ? ? ? H|row ? ? ? H];
    [apply moves_quiet | apply moves_opened with topic c
     | apply moves_closed with h | apply moves_stored with row];
    try rewrite Hm; simpl; assumption.
Qed.

Section LiveUpdates.
Context {E : QueryEngine}.

Lemma run_op_moves (o : Op) (b : Backend) : Moves o b (run_op b o).
Proof.
  destruct o as [ok_load st|ok_load st|h|user content ok now st
                |ok_insert ok_update now client_now st]; simpl.
  - unfold chat_effect. destruct (chat_conversation st) as [c|]; simpl.
    + now apply moves_opened with (topic := ("messages:"%string, conv_id c)) (cid := conv_id c).
    + now apply moves_quiet.
  - unfold inbox_effect. destruct (inbox_selectedConversation st) as [s|]; simpl.
    + now apply moves_opened
        with (topic := ("inbox-messages:"%string, conv_id (sum_conversation s)))
             (cid := conv_id (sum_conversation s)).
    + now apply moves_quiet.
  - now apply moves_closed with (h := h).
  - unfold sendMessage.
    destruct (chat_conversation st) as [c|]; [|now apply moves_quiet].
    destruct user as [u|]; [|now apply moves_quiet].
    destruct (negb (truthy (trim content))); [now apply moves_quiet|].
    pose proof (append_message_moves
                  (SendMessage (Some u) content ok now st) ok now (conv_id c)
                  (trim content) client b) as Hm.
    destruct (append_message ok now (conv_id c) (trim content) client b) as [b' [row|]];
      exact Hm.
  - unfold sendReply.
    destruct (inbox_selectedConversation st) as [s|]; [|now apply moves_quiet].
    destruct (negb (truthy (trim (inbox_newMessage st))) || inbox_sending st);
      [now apply moves_quiet|].
    pose proof (append_message_moves
                  (SendReply ok_insert ok_update now client_now st) ok_insert now
                  (conv_id (sum_conversation s)) (trim (inbox_newMessage st)) tutor b) as Hm.
    destruct (append_message ok_insert now (conv_id (sum_conversation s))
                (trim (inbox_newMessage st)) tutor b) as [b' [row|]]; simpl in *.
    + now apply with_db_update_moves.
    + exact Hm.
Qed.
End LiveUpdates.

Lemma received_app (h : N) (b : Backend) (es : list (N * Message)) :
  map snd (filter (fun e => (fst e =? h)%N) (be_callbacks b ++ es))
  = received h b ++ map snd (filter (fun e => (fst e =? h)%N) es).
Proof. unfold received. now rewrite filter_app, map_app. Qed.

Lemma received_notify (h : N) (row : Message) (chs : list Channel) :
  map snd (filter (fun e => (fst e =? h)%N) (notify row chs))
  = map (fun _ => row) (filter (listening row) (filter (is_handle h) chs)).
Proof.
  unfold notify, is_handle.
  induction chs as [|ch chs IH]; simpl; [reflexivity|].
  destruct (listening row ch) eqn:Hl, (ch_handle ch =? h)%N eqn:Hh;
    simpl; rewrite ?Hl, ?Hh; simpl; congruence.
Qed.

Lemma filter_handle_after_close (h h' : N) (chs : list Channel) :
  h' <> h ->
  filter (is_handle h) (filter (fun ch => negb (ch_handle ch =? h')%N) chs)
  = filter (is_handle h) chs.
Proof.
  intros Hne. rewrite filter_and. apply filter_ext. intros ch. unfold is_handle.
  destruct (ch_handle ch =? h)%N eqn:Hh; [|apply andb_false_r].
  apply N.eqb_eq in Hh. rewrite Hh.
  destruct (h =? h')%N eqn:Hh'; [apply N.eqb_eq in Hh'; congruence | reflexivity].
Qed.

Lemma filter_handle_closed (h : N) (chs : list Channel) :
  filter (is_handle h) (filter (fun ch => negb (ch_handle ch =? h)%N) chs) = [].
Proof.
  unfold is_handle. induction chs as [|ch chs IH]; simpl; [reflexivity|].
  destruct (ch_handle ch =? h)%N eqn:Hh; simpl; [exact IH | now rewrite Hh].
Qed.

Lemma filter_handle_after_open (h : N) (b : Backend) (topic : string * uuid) (cid : uuid) :
  (h < be_next_handle b)%N ->
  filter (is_handle h) (be_channels b ++ [mkChannel (be_next_handle b) topic cid])
  = filter (is_handle h) (be_channels b).
Proof.
  intros Hlt. rewrite filter_app. simpl. unfold is_handle at 2. simpl.
  destruct (be_next_handle b =? h)%N eqn:Hh; [apply N.eqb_eq in Hh; lia | apply app_nil_r].
Qed.

Lemma next_handle_step (o : Op) (b b' : Backend) :
  Moves o b b' -> (be_next_handle b <= be_next_handle b')%N.
Proof.
  intros [_ Hn _ _|topic cid _ Hn _ _|h _ _ Hn _ _|row _ Hn _ _]; rewrite Hn; lia.
Qed.

(** One call, seen from a channel that stays open across it. *)
Lemma open_channel_step (h : N) (cid : uuid) (o : Op) (b b' : Backend) :
  Moves o b b' -> releases h o = false ->
  (h < be_next_handle b)%N -> open_on h cid b ->
  open_on h cid b'
  /\ exists news, db_messages (be_db b') = db_messages (be_db b) ++ news
                  /\ received h b' = received h b ++ filter (in_conversation cid) news.
Proof.
  unfold open_on.
  intros [Hc Hn Hk Hm|topic cid' Hc Hn Hk Hm|h' Ho Hc Hn Hk Hm|row Hc Hn Hk Hm] Hrel Hlt Hopen.
  - split; [now rewrite Hc|]. exists []. unfold received.
    now rewrite Hm, Hk, !app_nil_r.
  - split; [now rewrite Hc, filter_handle_after_open|]. exists []. unfold received.
    now rewrite Hm, Hk, !app_nil_r.
  - subst o. simpl in Hrel. apply N.eqb_neq in Hrel.
    split; [now rewrite Hc, filter_handle_after_close|]. exists []. unfold received.
    now rewrite Hm, Hk, !app_nil_r.
  - split; [now rewrite Hc|]. exists [row]. split; [exact Hm|].
    unfold received at 1. rewrite Hk, received_app, received_notify. f_equal.
    destruct (filter (is_handle h) (be_channels b)) as [|ch [|ch' rest]];
      simpl in Hopen; try discriminate.
    injection Hopen as Hcid. simpl. unfold listening, in_conversation.
    rewrite Hcid, N.eqb_sym.
    destruct (msg_conversation_id row =? cid)%N; reflexivity.
Qed.

(** One call, seen from a handle that has been released. *)
Lemma released_channel_step (h : N) (o : Op) (b b' : Backend) :
  Moves o b b' -> (h < be_next_handle b)%N -> released h b ->
  released h b' /\ received h b' = received h b.
Proof.
  unfold released.
  intros [Hc Hn Hk Hm|topic cid' Hc Hn Hk Hm|h' Ho Hc Hn Hk Hm|row Hc Hn Hk Hm] Hlt Hrel.
  - split; [now rewrite Hc | unfold received; now rewrite Hk].
  - split; [now rewrite Hc, filter_handle_after_open | unfold received; now rewrite Hk].
  - split; [|unfold received; now rewrite Hk].
    rewrite Hc. destruct (N.eq_dec h' h) as [->|Hne].
    + apply filter_handle_closed.
    + now rewrite filter_handle_after_close.
  - split; [now rewrite Hc|].
    unfold received at 1. rewrite Hk, received_app, received_notify, Hrel.
    apply app_nil_r.
Qed.

Lemma skipn_length_app (A : Type) (l l' : list A) : skipn (List.length l) (l ++ l') = l'.
Proof. induction l as [|x l IH]; simpl; [reflexivity | exact IH]. Qed.

Lemma filter_none (A : Type) (f : A -> bool) (l : list A) :
  (forall x, In x l -> f x = false) -> filter f l = [].
Proof.
  induction l as [|x l IH]; simpl; intros H; [reflexivity|].
  rewrite (H x (or_introl eq_refl)). apply IH. intros y Hy. apply H. now right.
Qed.

Section LiveUpdateRuns.
Context {E : QueryEngine}.

Lemma open_channel_run (h : N) (cid : uuid) (ops : list Op) :
  forall b : Backend,
    keeps_open h ops = true -> (h < be_next_handle b)%N -> open_on h cid b ->
    exists news,
      db_messages (be_db (run ops b)) = db_messages (be_db b) ++ news
      /\ received h (run ops b) = received h b ++ filter (in_conversation cid) news.
Proof.
  induction ops as [|o ops IH]; intros b Hkeep Hlt Hopen.
  - exists []. simpl. now rewrite !app_nil_r.
  - simpl in Hkeep. apply andb_true_iff in Hkeep as [Ho Hkeep].
    apply negb_true_iff in Ho.
    pose proof (run_op_moves o b) as Hmv.
    destruct (open_channel_step Hmv Ho Hlt Hopen) as [Hopen' [n1 [Hm1 Hr1]]].
    assert (Hlt' : (h < be_next_handle (run_op b o))%N)
      by (pose proof (next_handle_step Hmv); lia).
    destruct (IH (run_op b o) Hkeep Hlt' Hopen') as [n2 [Hm2 Hr2]].
    exists (n1 ++ n2).
    change (run (o :: ops) b) with (run ops (run_op b o)).
    rewrite Hm2, Hm1, Hr2, Hr1, filter_app, !app_assoc. split; reflexivity.
Qed.

Lemma released_channel_run (h : N) (ops : list Op) :
  forall b : Backend,
    (h < be_next_handle b)%N -> released h b ->
    received h (run ops b) = received h b.
Proof.
  induction ops as [|o ops IH]; intros b Hlt Hrel; [reflexivity|].
  pose proof (run_op_moves o b) as Hmv.
  destruct (released_channel_step Hmv Hlt Hrel) as [Hrel' Hr].
  assert (Hlt' : (h < be_next_handle (run_op b o))%N)
    by (pose proof (next_handle_step Hmv); lia).
  change (run (o :: ops) b) with (run ops (run_op b o)).
  now rewrite (IH _ Hlt' Hrel').
Qed.

(** A channel opened on a backend whose handles are fresh has received
    nothing yet and is the only one carrying its handle. *)
Lemma subscribe_opens (prefix : string) (cid : uuid) (b : Backend) :
  handles_fresh b = true ->
  let h := fst (subscribe prefix cid b) in
  let b1 := snd (subscribe prefix cid b) in
  h = be_next_handle b /\ (h < be_next_handle b1)%N
  /\ open_on h cid b1 /\ received h b1 = [].
Proof.
  unfold handles_fresh. intros Hf. apply andb_true_iff in Hf as [Hch Hcb].
  rewrite forallb_forall in Hch, Hcb. simpl.
  split; [reflexivity|]. split; [lia|]. split.
  - unfold open_on. simpl. rewrite filter_app. simpl.
    unfold is_handle at 2. simpl. rewrite N.eqb_refl. simpl.
    replace (filter (is_handle (be_next_handle b)) (be_channels b)) with (@nil Channel);
      [reflexivity|].
    symmetry. apply filter_none.
    intros ch Hin. specialize (Hch ch Hin). apply N.ltb_lt in Hch.
    unfold is_handle. apply N.eqb_neq. lia.
  - unfold received. simpl.
    replace (filter (fun e => (fst e =? be_next_handle b)%N) (be_callbacks b))
      with (@nil (N * Message)); [reflexivity|].
    symmetry. apply filter_none.
    intros e Hin. specialize (Hcb e Hin). apply N.ltb_lt in Hcb.
    apply N.eqb_neq. lia.
Qed.
End LiveUpdateRuns.

(** The transcript a component shows after its callback has run on a series
    of payloads: what it had, followed by the payloads in order. *)
Lemma chat_on_insert_fold (payloads : list Message) (st : ChatState) :
  chat_messages (fold_left (fun s p => chat_on_insert p s) payloads st)
  = chat_messages st ++ payloads.
Proof.
  revert st. induction payloads as [|p ps IH]; intros st; simpl.
  - now rewrite app_nil_r.
  - rewrite IH. simpl. now rewrite <- app_assoc.
Qed.

(** C7: let the subscription effect of [useChat] open a channel on a
    conversation, and let any calls follow that do not release it.  Then the
    payloads its callback has been invoked with are exactly the message rows
    stored in that conversation since the channel was opened: each stored
    row once, as stored (same conversation, same content), in the order of
    the appends. *)
Theorem C7_subscriber_receives_each_append_once
    (E : QueryEngine) (ok_load : bool) (st : ChatState) (conv : Conversation)
    (b : Backend) (ops : list Op) :
  chat_conversation st = Some conv ->
  handles_fresh b = true ->
  keeps_open (be_next_handle b) ops = true ->
  let h := be_next_handle b in
  let b1 := snd (fst (chat_effect ok_load st b)) in
  snd (chat_effect ok_load st b) = Some h
  /\ received h b1 = []
  /\ received h (run ops b1) = appended_since (conv_id conv) b1 (run ops b1).
Proof.
  intros Hconv Hfresh Hkeep. unfold chat_effect. rewrite Hconv. simpl.
  destruct (subscribe_opens "messages:" (conv_id conv) b Hfresh) as [_ [Hlt [Hopen Hnone]]].
  simpl in Hlt, Hopen, Hnone.
  split; [reflexivity|]. split; [exact Hnone|].
  destruct (@open_channel_run E (be_next_handle b) (conv_id conv) ops
              (snd (subscribe "messages:" (conv_id conv) b)) Hkeep Hlt Hopen)
    as [news [Hm Hr]].
  simpl in Hm, Hr.
  rewrite Hr, Hnone. unfold appended_since. rewrite Hm.
  simpl. now rewrite skipn_length_app.
Qed.

Lemma C7_subscriber_receives_each_append_once_witness :
  let b1 := snd (fst (chat_effect (E := stable_engine) true Sample.chat1 Sample.backend1)) in
  snd (chat_effect (E := stable_engine) true Sample.chat1 Sample.backend1) = Some 0%N
  /\ received 0 b1 = []
  /\ received 0 (run (E := stable_engine) sample_history b1)
     = appended_since 0 b1 (run (E := stable_engine) sample_history b1).
Proof.
  apply (@C7_subscriber_receives_each_append_once stable_engine true Sample.chat1
           Sample.thread Sample.backend1 sample_history); reflexivity.
Defined.

Lemma sample_history_received :
  let b1 := snd (fst (chat_effect (E := stable_engine) true Sample.chat1 Sample.backend1)) in
  map (fun m => (msg_content m, msg_sender_type m))
    (received 0 (run (E := stable_engine) sample_history b1))
  = [ (Sample.hello, client); (of_string "Hi there", tutor);
      (of_string "Are you there?", client) ]
  /\ map (fun m => (msg_content m, msg_sender_type m))
       (received 1 (run (E := stable_engine) sample_history b1))
     = [ (of_string "Hi there", tutor) ].
Proof. split; reflexivity. Qed.

(** C8: once the clean-up of the subscription effect (of the hook or of the
    inbox) has released a handle that had been handed out, no later call
    invokes that handle's callback again: whatever follows, the payloads
    received on the handle are those received before the release. *)
Theorem C8_released_handle_receives_nothing
    (E : QueryEngine) (h : N) (b : Backend) (ops : list Op) :
  (h < be_next_handle b)%N ->
  received h (run ops (chat_cleanup h b)) = received h b
  /\ received h (run ops (inbox_cleanup h b)) = received h b.
Proof.
  intros Hlt.
  assert (H : received h (run ops (removeChannel h b)) = received h b).
  { rewrite released_channel_run; [reflexivity | exact Hlt | apply filter_handle_closed]. }
  split; exact H.
Qed.

Lemma C8_released_handle_receives_nothing_witness :
  let b2 :=
    run (E := stable_engine)
      [SendMessage (Some Sample.alice) Sample.hello true 200 Sample.chat1]
      (snd (fst (chat_effect (E := stable_engine) true Sample.chat1 Sample.backend1))) in
  received 0 (run (E := stable_engine) sample_history (chat_cleanup 0 b2)) = received 0 b2
  /\ received 0 (run (E := stable_engine) sample_history (inbox_cleanup 0 b2)) = received 0 b2.
Proof.
  apply (@C8_released_handle_receives_nothing stable_engine 0%N); reflexivity.
Defined.

Lemma sample_release_stops_delivery :
  let b2 :=
    run (E := stable_engine)
      [SendMessage (Some Sample.alice) Sample.hello true 200 Sample.chat1]
      (snd (fst (chat_effect (E := stable_engine) true Sample.chat1 Sample.backend1))) in
  map msg_content (received 0 b2) = [Sample.hello]
  /\ map msg_content (received 0 (run (E := stable_engine) sample_history (chat_cleanup 0 b2)))
     = [Sample.hello]
  /\ List.length (db_messages (be_db (run (E := stable_engine) sample_history
                                         (chat_cleanup 0 b2)))) = 4%nat.
Proof. repeat split. Qed.

(** ** Resolving a conversation *)

Lemma existsb_false_filter (A : Type) (f : A -> bool) (l : list A) :
  existsb f l = false -> filter f l = [].
Proof.
  induction l as [|x l IH]; simpl; [reflexivity|].
  destruct (f x); simpl; [discriminate | exact IH].
Qed.

Lemma existsb_true_filter (A : Type) (f : A -> bool) (l : list A) :
  existsb f l = true -> (1 <= List.length (filter f l))%nat.
Proof.
  induction l as [|x l IH]; simpl; [discriminate|].
  destruct (f x); simpl; [lia | exact IH].
Qed.

(** What the insert request does to the rows of the pair it is made for. *)
Lemma insert_conversation_pair_rows
    (sch : Schema) (ok : bool) now (u : User) (td : TutorData) (d : Db) :
  let out := insert_conversation sch ok now (user_id u) (td_id td) (td_name td)
               (client_display_name u) (user_email u) d in
  match snd out with
  | Some row => pair_rows u td (fst out) = pair_rows u td d ++ [row]
                /\ (unique_client_tutor sch = true -> pair_rows u td d = [])
  | None => fst out = d
            /\ (ok = true -> unique_client_tutor sch = true
                             /\ (1 <= List.length (pair_rows u td d))%nat)
  end.
Proof.
  unfold insert_conversation, pair_rows. destruct ok; simpl; [|split; [reflexivity|discriminate]].
  destruct (unique_client_tutor sch) eqn:Hu; simpl.
  - destruct (existsb (same_pair (user_id u) (td_id td)) (db_conversations d)) eqn:Hex; simpl.
    + split; [reflexivity|]. intros _. split; [reflexivity|]. now apply existsb_true_filter.
    + rewrite filter_app. simpl. unfold same_pair at 2. simpl. rewrite !N.eqb_refl. simpl.
      split; [reflexivity|]. intros _. now apply existsb_false_filter.
  - rewrite filter_app. simpl. unfold same_pair at 2. simpl. rewrite !N.eqb_refl. simpl.
    split; [reflexivity | discriminate].
Qed.

Section ResolverFacts.
Context {E : QueryEngine}.
Variable sch : Schema.
Variable u : User.
Variable td : TutorData.

Lemma select_pair_perm (d : Db) :
  Permutation (pair_rows u td d) (select_pair (user_id u) (td_id td) d).
Proof. apply unordered_perm. Qed.

(** The look-up finds the row when the pair has exactly one. *)
Lemma lookup_step_single (d : Db) (row : Conversation) :
  pair_rows u td d = [row] -> lookup_step true u td d = Finished (Some row).
Proof.
  intros H. unfold lookup_step.
  pose proof (select_pair_perm d) as Hp. rewrite H in Hp.
  apply Permutation_length_1_inv in Hp. now rewrite Hp.
Qed.

Lemma lookup_step_none (ok : bool) (d : Db) :
  pair_rows u td d = [] -> lookup_step ok u td d = AtInsert.
Proof.
  intros H. unfold lookup_step. destruct ok; [|reflexivity].
  pose proof (select_pair_perm d) as Hp. rewrite H in Hp.
  apply Permutation_nil in Hp. now rewrite Hp.
Qed.

(** A look-up that finds a row implies the pair has exactly one. *)
Lemma lookup_step_finished (ok : bool) (d : Db) :
  is_finished (lookup_step ok u td d) = true ->
  List.length (pair_rows u td d) = 1%nat.
Proof.
  unfold lookup_step. destruct ok; [|discriminate].
  pose proof (select_pair_perm d) as Hp. apply Permutation_length in Hp.
  destruct (select_pair (user_id u) (td_id td) d) as [|r [|r' rest]];
    simpl; try discriminate.
  intros _. exact Hp.
Qed.

(** The uninterrupted call is its two requests made back to back. *)
Lemma initializeConversation_two_steps
    (ok_lookup ok_insert : bool) now (st : ChatState) (d : Db) :
  let out := initializeConversation sch (Some u) td ok_lookup ok_insert now st d in
  let s1 := resolver_step sch ok_lookup now u td AtLookup d in
  let s2 := resolver_step sch ok_insert now u td (fst s1) (snd s1) in
  s2 = (Finished (snd out), snd (fst out)).
Proof.
  unfold initializeConversation, resolver_step, lookup_step, insert_step. simpl.
  destruct (if ok_lookup then maybeSingle (select_pair (user_id u) (td_id td) d) else None)
    as [existing|]; simpl; [reflexivity|].
  destruct (insert_conversation sch ok_insert now (user_id u) (td_id td) (td_name td)
              (client_display_name u) (user_email u) d) as [d' [row|]]; reflexivity.
Qed.

(** One request: rows of the pair are never removed; under the uniqueness
    constraint there is never a second one; and a call that finishes on a
    request that went through leaves at least one. *)
Lemma resolver_step_rows (ok : bool) now (pc : ResolverPc) (d : Db) :
  let out := resolver_step sch ok now u td pc d in
  (List.length (pair_rows u td d) <= List.length (pair_rows u td (snd out)))%nat
  /\ (unique_client_tutor sch = true ->
      (List.length (pair_rows u td d) <= 1)%nat ->
      (List.length (pair_rows u td (snd out)) <= 1)%nat)
  /\ (ok = true -> is_finished pc = false -> is_finished (fst out) = true ->
      (1 <= List.length (pair_rows u td (snd out)))%nat).
Proof.
  destruct pc as [| |r]; simpl.
  - split; [lia|]. split; [auto|]. intros _ _ Hf.
    apply lookup_step_finished in Hf. lia.
  - unfold insert_step.
    pose proof (insert_conversation_pair_rows sch ok now u td d) as H. simpl in H.
    destruct (insert_conversation sch ok now (user_id u) (td_id td) (td_name td)
                (client_display_name u) (user_email u) d) as [d' [row|]]; simpl in *.
    + destruct H as [Hrows Huniq]. rewrite Hrows, length_app. simpl.
      split; [lia|]. split; [|lia].
      intros Hu _. rewrite (Huniq Hu). simpl. lia.
    + destruct H as [-> Hok]. split; [lia|]. split; [auto|].
      intros Hk _ _. now destruct (Hok Hk).
  - split; [lia|]. split; [auto|]. discriminate.
Qed.
End ResolverFacts.

Section RaceFacts.
Context {E : QueryEngine}.
Variable sch : Schema.
Variable u : User.
Variable td : TutorData.

Let rows (r : Race) : nat := List.length (pair_rows u td (race_db r)).

Lemma race_step_rows (r : Race) (t : Tick) :
  let r' := race_step sch u td r t in
  (rows r <= rows r')%nat
  /\ (unique_client_tutor sch = true -> (rows r <= 1)%nat -> (rows r' <= 1)%nat)
  /\ (tick_ok t = true ->
      (some_finished r = true -> (1 <= rows r)%nat) ->
      some_finished r' = true -> (1 <= rows r')%nat).
Proof.
  unfold rows, race_step, some_finished.
  destruct (tick_tab t).
  - pose proof (resolver_step_rows sch u td (tick_ok t) (tick_now t) (race_a r) (race_db r))
      as [Hmono [Huniq Hfin]].
    destruct (resolver_step sch (tick_ok t) (tick_now t) u td (race_a r) (race_db r))
      as [pc d'] eqn:Hstep; simpl in *.
    split; [exact Hmono|]. split; [exact Huniq|].
    intros Hok Hinv Hsome.
    destruct (is_finished (race_a r)) eqn:Ha.
    + specialize (Hinv eq_refl). lia.
    + destruct (is_finished pc) eqn:Hpc; [now apply Hfin|].
      simpl in Hsome, Hinv. specialize (Hinv Hsome). lia.
  - pose proof (resolver_step_rows sch u td (tick_ok t) (tick_now t) (race_b r) (race_db r))
      as [Hmono [Huniq Hfin]].
    destruct (resolver_step sch (tick_ok t) (tick_now t) u td (race_b r) (race_db r))
      as [pc d'] eqn:Hstep; simpl in *.
    split; [exact Hmono|]. split; [exact Huniq|].
    intros Hok Hinv Hsome.
    destruct (is_finished (race_b r)) eqn:Hb.
    + rewrite orb_true_r in Hinv. specialize (Hinv eq_refl). lia.
    + destruct (is_finished pc) eqn:Hpc; [now apply Hfin|].
      rewrite orb_false_r in Hsome, Hinv. specialize (Hinv Hsome). lia.
Qed.

Lemma race_run_unique (ticks : list Tick) :
  forall r : Race,
    unique_client_tutor sch = true -> (rows r <= 1)%nat ->
    (rows (race_run sch u td ticks r) <= 1)%nat.
Proof.
  induction ticks as [|t ticks IH]; intros r Hu Hr; [exact Hr|].
  change (race_run sch u td (t :: ticks) r)
    with (race_run sch u td ticks (race_step sch u td r t)).
  apply IH; [exact Hu|]. now apply race_step_rows.
Qed.

Lemma race_run_finished (ticks : list Tick) :
  forall r : Race,
    all_ok ticks = true ->
    (some_finished r = true -> (1 <= rows r)%nat) ->
    some_finished (race_run sch u td ticks r) = true ->
    (1 <= rows (race_run sch u td ticks r))%nat.
Proof.
  induction ticks as [|t ticks IH]; intros r Hok Hinv; [exact Hinv|].
  simpl in Hok. apply andb_true_iff in Hok as [Ht Hok].
  change (race_run sch u td (t :: ticks) r)
    with (race_run sch u td ticks (race_step sch u td r t)).
  apply IH; [exact Hok|]. now apply race_step_rows.
Qed.

(** Two calls one after the other, every request going through, on a
    store that has no row for the pair yet. *)
Lemma initializeConversation_twice (now1 now2 : timestamp) (st1 st2 : ChatState) (d : Db) :
  pair_rows u td d = [] ->
  let out1 := initializeConversation sch (Some u) td true true now1 st1 d in
  let out2 := initializeConversation sch (Some u) td true true now2 st2 (snd (fst out1)) in
  exists row,
    pair_rows u td (snd (fst out2)) = [row]
    /\ snd out1 = Some row /\ snd out2 = Some row
    /\ chat_conversation (fst (fst out1)) = Some row
    /\ chat_conversation (fst (fst out2)) = Some row.
Proof.
  intros Hnone. unfold initializeConversation.
  rewrite (@lookup_step_none E u td true d Hnone). unfold insert_step.
  pose proof (insert_conversation_pair_rows sch true now1 u td d) as H. simpl in H.
  destruct (insert_conversation sch true now1 (user_id u) (td_id td) (td_name td)
              (client_display_name u) (user_email u) d) as [d1 [row|]]; simpl in *.
  - destruct H as [Hrows _]. rewrite Hnone in Hrows. simpl in Hrows.
    rewrite (@lookup_step_single E u td d1 row Hrows). simpl.
    exists row. repeat split; assumption.
  - destruct H as [_ Hok]. destruct (Hok eq_refl) as [_ Hlen].
    rewrite Hnone in Hlen. simpl in Hlen. lia.
Qed.
End RaceFacts.

(** C1, as stated, fails: the resolver looks the pair up and then issues a
    plain insert.  When two calls each look up before either inserts, a
    [conversations] table without a uniqueness constraint ends with two rows
    for the pair; with the constraint it ends with one, but the second call
    does not fetch that row: its insert is rejected and it returns nothing. *)
Lemma C1_overlapping_calls_duplicate_or_fail :
  List.length
    (pair_rows Sample.alice Sample.bob
       (race_db (race_run (E := stable_engine) (mkSchema false) Sample.alice Sample.bob
                   overlapping (race_start Sample.empty_db)))) = 2%nat
  /\ race_b (race_run (E := stable_engine) (mkSchema true) Sample.alice Sample.bob
               overlapping (race_start Sample.empty_db)) = Finished None
  /\ race_a (race_run (E := stable_engine) (mkSchema true) Sample.alice Sample.bob
               overlapping (race_start Sample.empty_db))
     = Finished (Some (mkConversation 0 10 20 (of_string "Bob") (of_string "alice")
                         (Some (of_string "alice@example.org")) 102 102))
  /\ List.length
       (pair_rows Sample.alice Sample.bob
          (race_db (race_run (E := stable_engine) (mkSchema true) Sample.alice Sample.bob
                      overlapping (race_start Sample.empty_db)))) = 1%nat.
Proof. repeat split. Qed.

(** C1, amended: on a store that has no conversation for the pair yet,
    (a) two calls of [initializeConversation] for the pair, the second made
    after the first has returned and every request going through, leave
    exactly one row for the pair, and both return that row; (b) if the
    [conversations] table enforces uniqueness of [(client_id, tutor_id)],
    then however the requests of two overlapping calls interleave and
    whichever of them fail, the pair never has more than one row, and it
    has exactly one as soon as a call has returned with all requests having
    gone through. *)
Theorem C1_single_row_without_overlap_or_with_unique_pair
    (E : QueryEngine) (sch : Schema) (u : User) (td : TutorData) (d : Db) :
  pair_rows u td d = [] ->
  (forall (now1 now2 : timestamp) (st1 st2 : ChatState),
      let out1 := initializeConversation sch (Some u) td true true now1 st1 d in
      let out2 := initializeConversation sch (Some u) td true true now2 st2 (snd (fst out1)) in
      exists row,
        pair_rows u td (snd (fst out2)) = [row]
        /\ snd out1 = Some row /\ snd out2 = Some row
        /\ chat_conversation (fst (fst out1)) = Some row
        /\ chat_conversation (fst (fst out2)) = Some row)
  /\ (unique_client_tutor sch = true ->
      forall ticks : list Tick,
        let r := race_run sch u td ticks (race_start d) in
        (List.length (pair_rows u td (race_db r)) <= 1)%nat
        /\ (all_ok ticks = true -> some_finished r = true ->
            List.length (pair_rows u td (race_db r)) = 1%nat)).
Proof.
  intros Hnone. split.
  - intros now1 now2 st1 st2. now apply initializeConversation_twice.
  - intros Hu ticks r.
    assert (Hle : (List.length (pair_rows u td (race_db r)) <= 1)%nat).
    { apply race_run_unique; [exact Hu|]. simpl. rewrite Hnone. simpl. lia. }
    split; [exact Hle|].
    intros Hok Hfin.
    assert (Hge : (1 <= List.length (pair_rows u td (race_db r)))%nat).
    { apply race_run_finished; [exact Hok | discriminate | exact Hfin]. }
    lia.
Qed.

Lemma C1_single_row_without_overlap_or_with_unique_pair_witness :
  (let st := mkChat None [] false false [] in
   let out1 := initializeConversation (E := stable_engine) (mkSchema true)
                 (Some Sample.alice) Sample.bob true true 100 st Sample.empty_db in
   let out2 := initializeConversation (E := stable_engine) (mkSchema true)
                 (Some Sample.alice) Sample.bob true true 200 st (snd (fst out1)) in
   exists row,
     pair_rows Sample.alice Sample.bob (snd (fst out2)) = [row]
     /\ snd out1 = Some row /\ snd out2 = Some row
     /\ chat_conversation (fst (fst out1)) = Some row
     /\ chat_conversation (fst (fst out2)) = Some row)
  /\ (let r := race_run (E := stable_engine) (mkSchema true) Sample.alice Sample.bob
                 overlapping (race_start Sample.empty_db) in
      (List.length (pair_rows Sample.alice Sample.bob (race_db r)) <= 1)%nat
      /\ (all_ok overlapping = true -> some_finished r = true ->
          List.length (pair_rows Sample.alice Sample.bob (race_db r)) = 1%nat)).
Proof.
  pose proof (@C1_single_row_without_overlap_or_with_unique_pair stable_engine
                (mkSchema true) Sample.alice Sample.bob Sample.empty_db eq_refl) as [Hseq Hrace].
  split.
  - exact (Hseq 100%Z 200%Z (mkChat None [] false false []) (mkChat None [] false false [])).
  - exact (Hrace eq_refl overlapping).
Defined.

(** ** The fee split *)

(** In binary64, [1 - 0.15] is the number written [0.85]. *)
Lemma tutor_share_is_0_85 :
  (1 - Payment.platformFeePercent)%float = 0x1.b333333333333p-1%float.
Proof. reflexivity. Qed.

(** Thirty pounds an hour, one lesson: 2550 pence for the tutor, 450 for
    the platform, 3000 stored as the amount. *)
Lemma payment_calculation_default_rate :
  Payment.payment_calculation 30 1 = Payment.mkSplit 2550 450 3000.
Proof. reflexivity. Qed.

(** C10: for every hourly rate and lesson quantity, the row written to
    [payments] satisfies [tutor_amount + platform_fee = amount], where
    [platform_fee] is [Math.round(hourlyRate * lessonQuantity * 100 * 0.15)]
    and [tutor_amount] is [Math.round(hourlyRate * lessonQuantity * 100 *
    0.85)], all in binary64 arithmetic. *)
Theorem C10_split_adds_up_to_stored_amount
    (student tutorId : uuid) (hourlyRate lessonQuantity : float) :
  let row := Payment.payment_row student tutorId hourlyRate lessonQuantity in
  (Payment.tutor_amount row + Payment.platform_fee row)%float = Payment.amount row
  /\ Payment.platform_fee row
     = Payment.Math_round (hourlyRate * lessonQuantity * 100 * 0x1.3333333333333p-3)%float
  /\ Payment.tutor_amount row
     = Payment.Math_round (hourlyRate * lessonQuantity * 100 * 0x1.b333333333333p-1)%float.
Proof.
  simpl. repeat split.
Qed.

(** * Further properties of the messaging code *)

(** ** What [trim] leaves *)

Module TrimFacts.

Lemma trimStart_split (s : jsstring) :
  exists p, s = p ++ trimStart s /\ blank p = true.
Proof.
  induction s as [|c s [p [Hs Hp]]]; [now exists []|].
  simpl. destruct (isWhiteSpace c) eqn:Hc.
  - exists (c :: p). simpl. rewrite Hc, Hp. split; [now f_equal | reflexivity].
  - now exists [].
Qed.

Lemma trimStart_head (s : jsstring) (c : N) (t : jsstring) :
  trimStart s = c :: t -> isWhiteSpace c = false.
Proof.
  induction s as [|x s IH]; simpl; [discriminate|].
  destruct (isWhiteSpace x) eqn:Hx; [exact IH|].
  intros H. injection H as <- _. exact Hx.
Qed.

Lemma trimStart_fixed (s : jsstring) :
  match s with [] => True | c :: _ => isWhiteSpace c = false end -> trimStart s = s.
Proof. destruct s as [|c s]; simpl; [reflexivity|]. now intros ->. Qed.

Lemma trimStart_idempotent (s : jsstring) : trimStart (trimStart s) = trimStart s.
Proof.
  apply trimStart_fixed. destruct (trimStart s) as [|c t] eqn:H; [exact I|].
  now apply trimStart_head in H.
Qed.

(** The first code unit of a trimmed string, if any, is not white space. *)
Lemma trim_head (s : jsstring) :
  match trim s with [] => True | c :: _ => isWhiteSpace c = false end.
Proof.
  unfold trim, trimEnd.
  destruct (trimStart_split (rev (trimStart s))) as [p [Hsplit _]].
  apply (f_equal (@rev N)) in Hsplit. rewrite rev_involutive, rev_app_distr in Hsplit.
  destruct (rev (trimStart (rev (trimStart s)))) as [|c r]; [exact I|].
  simpl in Hsplit. now apply trimStart_head in Hsplit.
Qed.

Lemma trim_idempotent (s : jsstring) : trim (trim s) = trim s.
Proof.
  pose proof (trim_head s) as Hhead.
  unfold trim at 1. rewrite (trimStart_fixed _ Hhead).
  unfold trim, trimEnd. rewrite rev_involutive, trimStart_idempotent. reflexivity.
Qed.

Lemma last_rev_cons (x : N) (l : jsstring) (d : N) : last (rev (x :: l)) d = x.
Proof. simpl. apply last_last. Qed.

(** Whatever [trim] returns, if not empty, has no white space at either
    end. *)
Lemma trim_well_trimmed (s : jsstring) :
  truthy (trim s) = true -> well_trimmed (trim s) = true.
Proof.
  intros Ht. pose proof (trim_head s) as Hhead.
  unfold well_trimmed. destruct (trim s) as [|c r] eqn:Htrim; [discriminate|].
  assert (Hlast : isWhiteSpace (last (c :: r) c) = false).
  { unfold trim, trimEnd in Htrim.
    destruct (trimStart (rev (trimStart s))) as [|x u] eqn:Hu; [discriminate|].
    rewrite <- Htrim, last_rev_cons. exact (trimStart_head _ Hu). }
  now rewrite Hhead, Hlast.
Qed.

End TrimFacts.

(** ** What a history writes *)

Lemma conv_identity_touch (ts : timestamp) (cid : uuid) (c : Conversation) :
  conv_identity (touch ts cid c) = conv_identity c.
Proof. unfold touch. now destruct (conv_id c =? cid)%N. Qed.

Lemma append_message_conversations (ok : bool) now cid content sender (b : Backend) :
  db_conversations (be_db (fst (append_message ok now cid content sender b)))
  = db_conversations (be_db b).
Proof. unfold append_message, insert_message. now destruct ok. Qed.

Lemma append_message_writes (ok : bool) now cid content sender (b : Backend) :
  match snd (append_message ok now cid content sender b) with
  | Some row =>
      ok = true
      /\ row = mkMessage (db_next_uuid (be_db b)) content sender now cid
      /\ db_messages (be_db (fst (append_message ok now cid content sender b)))
         = db_messages (be_db b) ++ [row]
  | None => ok = false /\ fst (append_message ok now cid content sender b) = b
  end.
Proof.
  unfold append_message, insert_message. destruct ok; simpl; [auto|].
  split; [reflexivity | now destruct b].
Qed.

Section HistoryFacts.
Context {E : QueryEngine}.

(** One call leaves the messages as they are or adds one row at the end,
    and then it is the row that call writes. *)
Lemma run_op_writes (o : Op) (b : Backend) :
  db_messages (be_db (run_op b o)) = db_messages (be_db b)
  \/ exists row,
       db_messages (be_db (run_op b o)) = db_messages (be_db b) ++ [row]
       /\ tidy row = true /\ writes o row.
Proof.
  destruct o as [ok_load st|ok_load st|h|user content ok now st
                |ok_insert ok_update now client_now st]; simpl.
  - left. unfold chat_effect. now destruct (chat_conversation st).
  - left. unfold inbox_effect. now destruct (inbox_selectedConversation st).
  - now left.
  - unfold sendMessage.
    destruct (chat_conversation st) as [c|] eqn:Hc; [|now left].
    destruct user as [u|]; [|now left].
    destruct (truthy (trim content)) eqn:Ht; simpl; [|now left].
    pose proof (append_message_writes ok now (conv_id c) (trim content) client b) as H.
    destruct (append_message ok now (conv_id c) (trim content) client b) as [b' [row|]];
      simpl in *.
    + destruct H as [_ [Hrow Hm]]. right. exists row. split; [exact Hm|].
      subst row. unfold tidy. simpl.
      split; [now apply TrimFacts.trim_well_trimmed | repeat split].
    + destruct H as [_ ->]. now left.
  - unfold sendReply.
    destruct (inbox_selectedConversation st) as [s|] eqn:Hs; [|now left].
    destruct (truthy (trim (inbox_newMessage st))) eqn:Ht; simpl; [|now left].
    destruct (inbox_sending st); simpl; [now left|].
    pose proof (append_message_writes ok_insert now (conv_id (sum_conversation s))
                  (trim (inbox_newMessage st)) tutor b) as H.
    destruct (append_message ok_insert now (conv_id (sum_conversation s))
                (trim (inbox_newMessage st)) tutor b) as [b' [row|]]; simpl in *.
    + destruct H as [_ [Hrow Hm]]. right. exists row.
      split; [unfold update_updated_at; destruct ok_update; exact Hm|].
      subst row. unfold tidy. simpl.
      split; [now apply TrimFacts.trim_well_trimmed | repeat split].
    + destruct H as [_ ->]. now left.
Qed.

Lemma run_op_conversations (o : Op) (b : Backend) :
  map conv_identity (db_conversations (be_db (run_op b o)))
  = map conv_identity (db_conversations (be_db b)).
Proof.
  destruct o as [ok_load st|ok_load st|h|user content ok now st
                |ok_insert ok_update now client_now st]; simpl.
  - unfold chat_effect. now destruct (chat_conversation st).
  - unfold inbox_effect. now destruct (inbox_selectedConversation st).
  - reflexivity.
  - now rewrite sendMessage_conversations_unchanged.
  - unfold sendReply.
    destruct (inbox_selectedConversation st) as [s|]; [|reflexivity].
    destruct (negb (truthy (trim (inbox_newMessage st))) || inbox_sending st); [reflexivity|].
    pose proof (append_message_conversations ok_insert now (conv_id (sum_conversation s))
                  (trim (inbox_newMessage st)) tutor b) as H.
    destruct (append_message ok_insert now (conv_id (sum_conversation s))
                (trim (inbox_newMessage st)) tutor b) as [b' [row|]]; simpl in *.
    + unfold update_updated_at. destruct ok_update; simpl; rewrite ?H; [|reflexivity].
      rewrite map_map. apply map_ext. intros c. apply conv_identity_touch.
    + now rewrite H.
Qed.
End HistoryFacts.

(** X1: whatever calls are made, the [messages] table only grows at its end,
    and every row added is the one a [sendMessage] or [sendReply] call of
    the history writes: its content is the typed text trimmed, not empty and
    without white space at either end; its sender is [client] for
    [sendMessage] and [tutor] for [sendReply]; it belongs to the caller's
    conversation and carries the store's time. *)
Theorem history_rows_come_from_sends (E : QueryEngine) (ops : list Op) (b : Backend) :
  exists news,
    db_messages (be_db (run ops b)) = db_messages (be_db b) ++ news
    /\ Forall (fun row => tidy row = true /\ exists o, In o ops /\ writes o row) news.
Proof.
  revert b. induction ops as [|o ops IH]; intros b.
  - exists []. simpl. now rewrite app_nil_r.
  - change (run (o :: ops) b) with (run ops (run_op b o)).
    destruct (IH (run_op b o)) as [n2 [Hm2 Hn2]].
    assert (Hn2' : Forall (fun row => tidy row = true
                                      /\ exists o', In o' (o :: ops) /\ writes o' row) n2).
    { eapply Forall_impl; [|exact Hn2].
      intros row [Ht [o' [Hin Hw]]]. split; [exact Ht|]. exists o'. split; [now right | exact Hw]. }
    destruct (run_op_writes o b) as [Hsame|[row [Hm1 [Ht Hw]]]].
    + exists n2. rewrite Hm2, Hsame. split; [reflexivity | exact Hn2'].
    + exists (row :: n2). rewrite Hm2, Hm1, <- app_assoc. split; [reflexivity|].
      constructor; [|exact Hn2'].
      split; [exact Ht|]. exists o. split; [now left | exact Hw].
Qed.

(** X2: no messaging call creates, deletes or re-addresses a conversation:
    across any history the rows of [conversations] keep their id, client,
    tutor, names, e-mail and [created_at], in the same order; only
    [updated_at] can differ. *)
Theorem history_keeps_conversations (E : QueryEngine) (ops : list Op) (b : Backend) :
  map conv_identity (db_conversations (be_db (run ops b)))
  = map conv_identity (db_conversations (be_db b)).
Proof.
  revert b. induction ops as [|o ops IH]; intros b; [reflexivity|].
  change (run (o :: ops) b) with (run ops (run_op b o)).
  now rewrite IH, run_op_conversations.
Qed.

(** ** Sending from the chat page and from the inbox *)

(** X3: the submit handler of the chat page does nothing while the input is
    blank or a send is in progress; otherwise it empties the input box
    whatever becomes of the message, and when the insert fails, no user is
    signed in or the conversation has not been resolved yet, the backend is
    left exactly as it was: the typed text is neither stored nor kept. *)
Theorem handleSendMessage_clears_input_even_when_nothing_is_stored
    (user : option User) (ok : bool) (now : timestamp) (p : ChatPage) (b : Backend) :
  let out := handleSendMessage user ok now p b in
  (blank (page_messageInput p) = true \/ chat_sending (page_hook p) = true -> out = (p, b))
  /\ (blank (page_messageInput p) = false -> chat_sending (page_hook p) = false ->
      page_messageInput (fst out) = []
      /\ (ok = false \/ user = None \/ chat_conversation (page_hook p) = None -> snd out = b)).
Proof.
  unfold handleSendMessage. rewrite JsFacts.truthy_trim, negb_involutive. split.
  - intros [-> | ->]; [reflexivity | now rewrite orb_true_r].
  - intros -> ->. simpl.
    destruct (sendMessage user (page_messageInput p) ok now (page_hook p) b)
      as [hook b'] eqn:Hsend.
    split; [reflexivity|]. simpl. intros Hcase.
    unfold sendMessage in Hsend.
    destruct (chat_conversation (page_hook p)) as [c|];
      [|injection Hsend as _ <-; reflexivity].
    destruct user as [u|]; [|injection Hsend as _ <-; reflexivity].
    destruct (negb (truthy (trim (page_messageInput p))));
      [injection Hsend as _ <-; reflexivity|].
    destruct Hcase as [-> | [Hu | Hc]]; try discriminate.
    pose proof (append_message_writes false now (conv_id c) (trim (page_messageInput p))
                  client b) as H.
    destruct (append_message false now (conv_id c) (trim (page_messageInput p)) client b)
      as [b'' [row|]]; simpl in H.
    + now destruct H.
    + destruct H as [_ ->]. now injection Hsend as _ <-.
Qed.

(** X4: when the insert request fails, [sendMessage] and [sendReply] leave
    the backend exactly as it was (no row, no callback, [updated_at]
    untouched), show their error toast once, and only if the request was
    made at all; [sendReply] keeps the typed reply. *)
Theorem failed_insert_leaves_backend_and_draft
    (user : option User) (content : jsstring) (ok_update : bool)
    (now client_now : timestamp) (st : ChatState) (ist : InboxState) (b : Backend) :
  let out1 := sendMessage user content false now st b in
  let out2 := sendReply false ok_update now client_now ist b in
  snd out1 = b
  /\ chat_toasts (fst out1)
     = (if send_attempted user content st then chat_toasts st ++ [toast_send_failed]
        else chat_toasts st)
  /\ snd out2 = b
  /\ inbox_newMessage (fst out2) = inbox_newMessage ist
  /\ inbox_toasts (fst out2)
     = (if reply_attempted ist then inbox_toasts ist ++ [toast_reply_failed]
        else inbox_toasts ist).
Proof.
  assert (Hfail : forall cid text sender,
             append_message false now cid text sender b = (b, None)).
  { intros. unfold append_message, insert_message. simpl. now destruct b. }
  unfold sendMessage, sendReply, send_attempted, reply_attempted.
  repeat split.
  - destruct (chat_conversation st); [|reflexivity]. destruct user; [|reflexivity].
    destruct (negb (truthy (trim content))); [reflexivity|]. now rewrite Hfail.
  - destruct (chat_conversation st); [|reflexivity]. destruct user; [|reflexivity].
    rewrite JsFacts.truthy_trim, negb_involutive.
    destruct (blank content); [reflexivity|]. now rewrite Hfail.
  - destruct (inbox_selectedConversation ist); [|reflexivity].
    destruct (negb (truthy (trim (inbox_newMessage ist))) || inbox_sending ist);
      [reflexivity|]. now rewrite Hfail.
  - destruct (inbox_selectedConversation ist); [|reflexivity].
    destruct (negb (truthy (trim (inbox_newMessage ist))) || inbox_sending ist);
      [reflexivity|]. now rewrite Hfail.
  - destruct (inbox_selectedConversation ist); [|reflexivity].
    rewrite JsFacts.truthy_trim, negb_involutive.
    destruct (blank (inbox_newMessage ist)); [reflexivity|].
    destruct (inbox_sending ist); [reflexivity|]. now rewrite Hfail.
Qed.

(** ** More on the inbox listing *)

Lemma nth_error_last (A : Type) (l : list A) :
  l <> [] -> exists x, In x l /\ nth_error l (List.length l - 1) = Some x.
Proof.
  intros Hne. destruct (exists_last Hne) as [l' [x ->]].
  exists x. split; [apply in_or_app; right; now left|].
  rewrite length_app. simpl.
  replace (List.length l' + 1 - 1)%nat with (List.length l') by lia.
  rewrite nth_error_app2 by lia. now rewrite Nat.sub_diag.
Qed.

Lemma positive_length_filter (A : Type) (f : A -> bool) (l : list A) :
  (0 <? List.length (filter f l))%nat = existsb f l.
Proof.
  induction l as [|x l IH]; simpl; [reflexivity|].
  destruct (f x); simpl; [reflexivity | exact IH].
Qed.

Lemma filter_length_le (A : Type) (f g : A -> bool) (l : list A) :
  (forall x, f x = true -> g x = true) ->
  (List.length (filter f l) <= List.length (filter g l))%nat.
Proof.
  intros Himp. induction l as [|x l IH]; simpl; [lia|].
  destruct (f x) eqn:Hf.
  - rewrite (Himp x Hf). simpl. lia.
  - destruct (g x); simpl; lia.
Qed.

Section InboxDetails.
Context {E : QueryEngine}.

Lemma select_inbox_rows (userId : uuid) (d : Db) (row : Conversation * list EmbeddedMessage) :
  In row (select_inbox userId d) ->
  In (fst row) (db_conversations d)
  /\ conv_tutor_id (fst row) = userId
  /\ has_message d (fst row) = true
  /\ snd row = embedded_messages d (fst row).
Proof.
  unfold select_inbox. intros H. apply in_map_iff in H as [c [<- Hc]]. simpl.
  apply (Permutation_in _ (Permutation_sym (order_by_perm conv_updated_at false _))) in Hc.
  apply filter_In in Hc as [Hin Hc]. apply andb_true_iff in Hc as [Ht Hm].
  apply N.eqb_eq in Ht. auto.
Qed.

Lemma embedded_messages_nonempty (d : Db) (c : Conversation) :
  has_message d c = true ->
  exists m, In m (db_messages d) /\ msg_conversation_id m = conv_id c
            /\ nth_error (embedded_messages d c) (List.length (embedded_messages d c) - 1)
               = Some (embed m).
Proof.
  intros Hm. unfold embedded_messages.
  set (l := unordered (filter (in_conversation (conv_id c)) (db_messages d))).
  assert (Hperm : Permutation (filter (in_conversation (conv_id c)) (db_messages d)) l)
    by apply unordered_perm.
  assert (Hne : l <> []).
  { intros Hnil. rewrite Hnil in Hperm. apply Permutation_sym, Permutation_nil in Hperm.
    apply existsb_true_filter in Hm. rewrite Hperm in Hm. simpl in Hm. lia. }
  destruct (nth_error_last Hne) as [x [Hin Hnth]].
  apply (Permutation_in _ (Permutation_sym Hperm)) in Hin.
  apply filter_In in Hin as [Hin Hx]. apply N.eqb_eq in Hx.
  exists x. split; [exact Hin|]. split; [exact Hx|].
  rewrite length_map, nth_error_map, Hnth. reflexivity.
Qed.
End InboxDetails.

(** X5: every conversation of a successful inbox listing carries a
    [last_message], never [null], and it is one of the stored messages of
    that conversation (its content, sender and [created_at]). *)
Theorem listed_conversation_has_last_message
    (E : QueryEngine) (userId : uuid) (st : InboxState) (d : Db) :
  Forall (fun s => exists m,
              In m (db_messages d)
              /\ msg_conversation_id m = conv_id (sum_conversation s)
              /\ sum_last_message s = Some (embed m))
    (inbox_conversations (loadConversations true userId st d)).
Proof.
  simpl. apply Forall_forall. intros s Hs.
  unfold processedConvos in Hs. apply in_map_iff in Hs as [[c ms] [<- Hrow]].
  apply select_inbox_rows in Hrow as [_ [_ [Hm Hms]]]. simpl in Hm, Hms. subst ms.
  destruct (embedded_messages_nonempty d c Hm) as [m [Hin [Hc Hnth]]].
  exists m. split; [exact Hin|]. split; [exact Hc|].
  simpl. rewrite Hnth.
  destruct (List.length (embedded_messages d c)) eqn:Hlen; [|reflexivity].
  apply length_zero_iff_nil in Hlen. rewrite Hlen in Hnth. discriminate.
Qed.

(** X6: a client's message that is stored makes the conversation appear in
    its tutor's inbox listing, whether or not it was listed before; the
    [conversations] rows themselves are not changed by it. *)
Theorem client_message_lists_conversation
    (E : QueryEngine) (u : User) (content : jsstring) (now : timestamp)
    (st : ChatState) (b : Backend) (conv stored : Conversation) :
  chat_conversation st = Some conv ->
  blank content = false ->
  In stored (db_conversations (be_db b)) ->
  conv_id stored = conv_id conv ->
  let b' := snd (sendMessage (Some u) content true now st b) in
  db_conversations (be_db b') = db_conversations (be_db b)
  /\ In stored (map sum_conversation (processedConvos (conv_tutor_id stored) (be_db b'))).
Proof.
  intros Hconv Hblank Hin Hid b'.
  assert (Hconvs : db_conversations (be_db b') = db_conversations (be_db b))
    by apply sendMessage_conversations_unchanged.
  split; [exact Hconvs|].
  apply processedConvos_listed. rewrite Hconvs. split; [exact Hin|]. split; [reflexivity|].
  unfold has_message. apply existsb_exists.
  exists (mkMessage (db_next_uuid (be_db b)) (trim content) client now (conv_id conv)).
  split; [|unfold in_conversation; simpl; now apply N.eqb_eq].
  subst b'. unfold sendMessage. rewrite Hconv, JsFacts.truthy_trim, Hblank. simpl.
  apply in_or_app. right. now left.
Qed.

Lemma client_message_lists_conversation_witness :
  let b' := snd (sendMessage (Some Sample.alice) Sample.hello true 200
                   Sample.chat1 Sample.backend1) in
  db_conversations (be_db b') = db_conversations (be_db Sample.backend1)
  /\ In Sample.thread
       (map sum_conversation
          (processedConvos (E := stable_engine) (conv_tutor_id Sample.thread) (be_db b'))).
Proof.
  apply (@client_message_lists_conversation stable_engine Sample.alice Sample.hello 200%Z
           Sample.chat1 Sample.backend1 Sample.thread Sample.thread);
    [reflexivity | reflexivity | now left | reflexivity].
Defined.

Lemma touch_updated_at (ts : timestamp) (cid : uuid) (c : Conversation) :
  conv_updated_at (touch ts cid c)
  = if (conv_id c =? cid)%N then ts else conv_updated_at c.
Proof. unfold touch. now destruct (conv_id c =? cid)%N. Qed.

(** X7: a tutor's reply whose two requests go through, stamped later than
    the [updated_at] of every other conversation, puts the conversation
    replied to first in that tutor's next inbox listing, with [updated_at]
    the time of the reply. *)
Theorem reply_moves_conversation_first
    (E : QueryEngine) (userId : uuid) (now client_now : timestamp)
    (st : InboxState) (b : Backend) (sel : ConversationSummary) (stored : Conversation) :
  inbox_selectedConversation st = Some sel ->
  blank (inbox_newMessage st) = false ->
  inbox_sending st = false ->
  In stored (db_conversations (be_db b)) ->
  conv_id stored = conv_id (sum_conversation sel) ->
  conv_tutor_id stored = userId ->
  (forall c, In c (db_conversations (be_db b)) ->
             conv_id c <> conv_id (sum_conversation sel) ->
             (conv_updated_at c < client_now)%Z) ->
  let b' := snd (sendReply true true now client_now st b) in
  exists first rest,
    processedConvos userId (be_db b') = first :: rest
    /\ conv_id (sum_conversation first) = conv_id (sum_conversation sel)
    /\ conv_updated_at (sum_conversation first) = client_now.
Proof.
  intros Hsel Hblank Hsending Hin Hid Htutor Hothers b'.
  set (cid := conv_id (sum_conversation sel)) in *.
  destruct (sendReply_update_is_best_effort true now client_now st b Hsel Hblank Hsending)
    as [Hmsgs [_ Hconvs]].
  fold b' in Hmsgs, Hconvs. fold cid in Hmsgs, Hconvs.
  (* the conversation replied to is listed *)
  assert (Hlisted : In (touch client_now cid stored)
                      (map sum_conversation (processedConvos userId (be_db b')))).
  { apply processedConvos_listed. rewrite Hconvs. split; [now apply in_map|].
    split; [unfold touch; now destruct (conv_id stored =? cid)%N|].
    unfold has_message. apply existsb_exists.
    eexists. split; [rewrite Hmsgs; apply in_or_app; right; now left|].
    unfold in_conversation, touch. simpl.
    destruct (conv_id stored =? cid)%N; simpl; apply N.eqb_eq; now rewrite ?Hid. }
  pose proof (processedConvos_sorted userId (be_db b')) as Hsorted.
  destruct (processedConvos userId (be_db b')) as [|first rest] eqn:Hlist;
    [contradiction|].
  exists first, rest. split; [reflexivity|].
  (* the first row is at least as recent as the one replied to *)
  assert (Hkey : (client_now <= conv_updated_at (sum_conversation first))%Z).
  { inversion Hsorted as [|? ? _ Hall]; subst.
    assert (Hts : conv_updated_at (touch client_now cid stored) = client_now)
      by (rewrite touch_updated_at, Hid; fold cid; now rewrite N.eqb_refl).
    destruct Hlisted as [Heq|Hrest].
    - rewrite Heq, Hts. lia.
    - apply in_map_iff in Hrest as [s [Hs Hsin]].
      rewrite Forall_forall in Hall. specialize (Hall s Hsin).
      rewrite Hs, Hts in Hall. exact Hall. }
  (* and it is a row of the table after the reply *)
  assert (Hfirst : In (sum_conversation first)
                     (map sum_conversation (processedConvos userId (be_db b'))))
    by (rewrite Hlist; now left).
  apply processedConvos_listed in Hfirst as [Hrow _].
  rewrite Hconvs in Hrow. apply in_map_iff in Hrow as [c0 [Hc0 Hc0in]].
  rewrite <- Hc0 in *. rewrite touch_updated_at in *.
  destruct (conv_id c0 =? cid)%N eqn:Hc; unfold touch; rewrite Hc; simpl.
  - apply N.eqb_eq in Hc. auto.
  - apply N.eqb_neq in Hc. specialize (Hothers c0 Hc0in Hc). lia.
Qed.

Lemma reply_moves_conversation_first_witness :
  let b' := snd (sendReply true true 200 201 (Sample.inbox_typing Sample.hello)
                   (mkBackend inbox_db [] 0 [])) in
  exists first rest,
    processedConvos (E := stable_engine) 20 (be_db b') = first :: rest
    /\ conv_id (sum_conversation first) = conv_id Sample.thread
    /\ conv_updated_at (sum_conversation first) = 201%Z.
Proof.
  apply (@reply_moves_conversation_first stable_engine 20%N 200%Z 201%Z
           (Sample.inbox_typing Sample.hello) (mkBackend inbox_db [] 0 [])
           (mkSummary Sample.thread None 0)
           (mkConversation 0 10 20 (of_string "Bob") (of_string "alice") None 100 150));
    try reflexivity.
  - now left.
  - simpl. intros c [<-|[<-|[<-|[]]]] Hne; simpl in *; lia.
Defined.

(** ** The unread badge *)

Lemma fold_count_conversation (rows : list (uuid * list BadgeMessage)) (acc : nat) :
  fold_left count_conversation rows acc
  = (acc + List.length (filter (fun r => (0 <? List.length (snd r))%nat) rows))%nat.
Proof.
  revert acc. induction rows as [|r rows IH]; intros acc; simpl; [lia|].
  rewrite IH. unfold count_conversation.
  destruct (0 <? List.length (snd r))%nat; simpl; lia.
Qed.

Section BadgeFacts.
Context {E : QueryEngine}.

Lemma fetchUnreadCount_rows (u : User) (cnt : nat) (d : Db) :
  fetchUnreadCount (Some u) true cnt d = List.length (badge_rows (user_id u) d).
Proof.
  unfold fetchUnreadCount, select_badge, badge_rows.
  rewrite fold_count_conversation, filter_map_length. simpl.
  rewrite <- (filter_length_perm _ (unordered_perm (filter (involves (user_id u))
                                                    (db_conversations d)))).
  rewrite filter_and. f_equal. apply filter_ext. intros c. f_equal.
  rewrite length_map.
  rewrite <- (Permutation_length (unordered_perm (filter (in_conversation (conv_id c))
                                                   (db_messages d)))).
  apply positive_length_filter.
Qed.
End BadgeFacts.

(** X8: when its request succeeds, the navigation badge shows the number of
    conversations the user takes part in (as client or as tutor) that have at
    least one message: conversations, not messages, and whoever sent them.
    It is therefore at most the number of the user's conversations, at least
    the number of conversations in the user's tutor inbox, and a further
    message in a conversation that already has one does not change it. *)
Theorem badge_counts_conversations_with_messages
    (E : QueryEngine) (u : User) (cnt : nat) (d : Db) :
  let n := fetchUnreadCount (Some u) true cnt d in
  n = List.length (badge_rows (user_id u) d)
  /\ (n <= List.length (filter (involves (user_id u)) (db_conversations d)))%nat
  /\ (List.length (processedConvos (user_id u) d) <= n)%nat
  /\ forall (m : Message) (next : N),
       existsb (in_conversation (msg_conversation_id m)) (db_messages d) = true ->
       fetchUnreadCount (Some u) true cnt
         (mkDb (db_conversations d) (db_messages d ++ [m]) next) = n.
Proof.
  cbv zeta. rewrite fetchUnreadCount_rows. split; [reflexivity|]. split; [|split].
  - unfold badge_rows. rewrite <- filter_and.
    induction (filter (involves (user_id u)) (db_conversations d)) as [|c l IH];
      simpl; [lia|]. destruct (has_message d c); simpl; lia.
  - unfold processedConvos, select_inbox. rewrite !length_map.
    rewrite <- (Permutation_length (order_by_perm conv_updated_at false _)).
    apply filter_length_le. intros c Hc. apply andb_true_iff in Hc as [Ht Hm].
    unfold involves, has_message. rewrite Ht, Hm. now rewrite orb_true_r.
  - intros m next Hm. rewrite fetchUnreadCount_rows. unfold badge_rows. simpl.
    f_equal. apply filter_ext. intros c. f_equal.
    unfold has_message. simpl. rewrite existsb_app. simpl. rewrite orb_false_r.
    unfold in_conversation at 2.
    destruct (msg_conversation_id m =? conv_id c)%N eqn:Hc;
      [|now rewrite orb_false_r].
    apply N.eqb_eq in Hc. rewrite <- Hc, Hm. reflexivity.
Qed.

(** * Properties of the exam rates *)

(** ** Objects *)

Module JsObjectFacts.
Import JsObject.

Lemma str_eqb_eq (a b : jsstring) : str_eqb a b = true <-> a = b.
Proof.
  revert b. induction a as [|x a IH]; intros [|y b]; simpl; split; try discriminate; auto.
  - intros H. apply andb_true_iff in H as [Hx Ha].
    apply N.eqb_eq in Hx. apply IH in Ha. now subst.
  - intros H. injection H as -> ->. rewrite N.eqb_refl. now apply IH.
Qed.

Lemma str_eqb_refl (a : jsstring) : str_eqb a a = true.
Proof. now apply str_eqb_eq. Qed.

Lemma str_eqb_neq (a b : jsstring) : str_eqb a b = false <-> a <> b.
Proof.
  split.
  - intros H Heq. apply str_eqb_eq in Heq. congruence.
  - intros H. destruct (str_eqb a b) eqn:Hab; [|reflexivity].
    apply str_eqb_eq in Hab. contradiction.
Qed.

Lemma includes_In (xs : list jsstring) (x : jsstring) : includes xs x = true <-> In x xs.
Proof.
  unfold includes. rewrite existsb_exists. split.
  - intros [y [Hin Hy]]. apply str_eqb_eq in Hy. now subst.
  - intros Hin. exists x. split; [exact Hin | apply str_eqb_refl].
Qed.

Section Values.
Variable V : Type.

Lemma get_set_same (k : jsstring) (v : V) (o : obj V) : get k (set k v o) = Some v.
Proof.
  induction o as [|[k' v'] o IH]; simpl; [now rewrite str_eqb_refl|].
  destruct (str_eqb k' k) eqn:Hk; simpl; now rewrite Hk.
Qed.

Lemma get_set_other (k k' : jsstring) (v : V) (o : obj V) :
  k <> k' -> get k (set k' v o) = get k o.
Proof.
  intros Hne. induction o as [|[k0 v0] o IH]; simpl.
  - apply not_eq_sym, str_eqb_neq in Hne. now rewrite Hne.
  - destruct (str_eqb k0 k') eqn:Hk; simpl; [|now rewrite IH].
    apply str_eqb_eq in Hk. subst k0.
    apply not_eq_sym, str_eqb_neq in Hne. now rewrite Hne.
Qed.

Lemma get_delete_same (k : jsstring) (o : obj V) : get k (delete k o) = None.
Proof.
  unfold delete. induction o as [|[k' v'] o IH]; simpl; [reflexivity|].
  destruct (str_eqb k' k) eqn:Hk; simpl; [exact IH | now rewrite Hk].
Qed.

Lemma get_delete_other (k k' : jsstring) (o : obj V) :
  k <> k' -> get k (delete k' o) = get k o.
Proof.
  intros Hne. unfold delete. induction o as [|[k0 v0] o IH]; simpl; [reflexivity|].
  destruct (str_eqb k0 k') eqn:Hk; simpl.
  - apply str_eqb_eq in Hk. subst k0.
    apply not_eq_sym, str_eqb_neq in Hne. now rewrite Hne.
  - now rewrite IH.
Qed.

Lemma get_none_keys (k : jsstring) (o : obj V) : get k o = None <-> ~ In k (keys o).
Proof.
  unfold keys. induction o as [|[k' v'] o IH]; simpl; [tauto|].
  destruct (str_eqb k' k) eqn:Hk.
  - apply str_eqb_eq in Hk. split; [discriminate | intros H; elim H; now left].
  - apply str_eqb_neq in Hk. rewrite IH. tauto.
Qed.

Lemma keys_set (k : jsstring) (v : V) (o : obj V) :
  keys (set k v o) = match get k o with Some _ => keys o | None => keys o ++ [k] end.
Proof.
  unfold keys. induction o as [|[k' v'] o IH]; simpl; [reflexivity|].
  destruct (str_eqb k' k) eqn:Hk; simpl; [reflexivity|].
  rewrite IH. now destruct (get k o).
Qed.

(** Setting a key that is absent and deleting it again gives the object
    back. *)
Lemma delete_set_absent (k : jsstring) (v : V) (o : obj V) :
  get k o = None -> delete k (set k v o) = o.
Proof.
  unfold delete. induction o as [|[k' v'] o IH]; simpl.
  - intros _. now rewrite str_eqb_refl.
  - destruct (str_eqb k' k) eqn:Hk; [discriminate|].
    intros H. simpl. rewrite Hk. simpl. now rewrite IH.
Qed.

Lemma NoDup_keys_set (k : jsstring) (v : V) (o : obj V) :
  NoDup (keys o) -> NoDup (keys (set k v o)).
Proof.
  intros Hnd. rewrite keys_set. destruct (get k o) eqn:Hg; [exact Hnd|].
  apply get_none_keys in Hg.
  apply NoDup_rev in Hnd. rewrite <- (rev_involutive (keys o ++ [k])).
  apply NoDup_rev. rewrite rev_app_distr. simpl. constructor; [|exact Hnd].
  now rewrite <- in_rev.
Qed.

End Values.
End JsObjectFacts.

(** ** The exam selection of the sign-up form *)

Module SignupFacts.
Import JsObject JsObjectFacts Signup.

Lemma filter_absent (exam : jsstring) (l : list jsstring) :
  ~ In exam l -> filter (fun e => negb (str_eqb e exam)) l = l.
Proof.
  induction l as [|x l IH]; simpl; [reflexivity|].
  intros Hn. destruct (str_eqb x exam) eqn:Hx.
  - apply str_eqb_eq in Hx. elim Hn. now left.
  - simpl. rewrite IH; [reflexivity | tauto].
Qed.

Lemma NoDup_snoc (x : jsstring) (l : list jsstring) :
  NoDup l -> ~ In x l -> NoDup (l ++ [x]).
Proof.
  intros Hnd Hn. apply NoDup_rev in Hnd.
  rewrite <- (rev_involutive (l ++ [x])). apply NoDup_rev.
  rewrite rev_app_distr. simpl. constructor; [now rewrite <- in_rev | exact Hnd].
Qed.

Lemma act_consistent (st : SignupState) (a : Action) :
  signup_consistent st -> signup_consistent (act st a).
Proof.
  intros [Hnd [Hrates [Hexams Hform]]]. unfold signup_consistent.
  destruct a as [[|]|exam|exam|exam rate]; simpl.
  - repeat split; [constructor | intros e []].
  - repeat split; assumption.
  - unfold addExam. destruct (includes (selectedExams st) exam) eqn:Hinc; simpl;
      [repeat split; assumption|].
    assert (Hnot : ~ In exam (selectedExams st)).
    { intros Hin. apply includes_In in Hin. congruence. }
    repeat split; [now apply NoDup_snoc|].
    intros e Hin. destruct (str_eqb e exam) eqn:He.
    + apply str_eqb_eq in He. subst e. eexists. apply get_set_same.
    + apply str_eqb_neq in He. rewrite get_set_other by exact He.
      apply Hrates. apply in_app_or in Hin as [Hin|[Heq|[]]]; [exact Hin | congruence].
  - repeat split; [now apply NoDup_filter|].
    intros e Hin. apply filter_In in Hin as [Hin He].
    apply negb_true_iff, str_eqb_neq in He.
    rewrite get_delete_other by exact He. now apply Hrates.
  - repeat split; [exact Hnd | | exact Hexams].
    intros e Hin. destruct (str_eqb e exam) eqn:He.
    + apply str_eqb_eq in He. subst e. eexists. apply get_set_same.
    + apply str_eqb_neq in He. rewrite get_set_other by exact He. now apply Hrates.
Qed.

End SignupFacts.

(** X9: whatever the user does on the sign-up form (choosing student or
    tutor, adding and removing exams, changing rates), no exam is selected
    twice, every selected exam has a rate, and the form values [exams] and
    [examRates] equal the component's [selectedExams] and [examRates]. *)
Theorem signup_selection_stays_consistent (actions : list Signup.Action) :
  signup_consistent (fold_left Signup.act actions Signup.initial).
Proof.
  assert (H : forall st, signup_consistent st ->
                         signup_consistent (fold_left Signup.act actions st)).
  { induction actions as [|a actions IH]; intros st Hst; [exact Hst|].
    simpl. apply IH. now apply SignupFacts.act_consistent. }
  apply H. repeat split; [constructor | intros e []].
Qed.

(** X10: [addExam] on an exam already selected changes nothing, so the rate
    typed for it is kept; on a new exam it appends the exam, gives it the
    rate 25 and leaves every other rate as it was. *)
Theorem addExam_keeps_existing_rate (exam : jsstring) (st : Signup.SignupState) :
  (In exam (Signup.selectedExams st) -> Signup.addExam exam st = st)
  /\ (~ In exam (Signup.selectedExams st) ->
      let st' := Signup.addExam exam st in
      Signup.selectedExams st' = Signup.selectedExams st ++ [exam]
      /\ JsObject.get exam (Signup.rates st') = Some 25%float
      /\ forall k, k <> exam ->
                   JsObject.get k (Signup.rates st') = JsObject.get k (Signup.rates st)).
Proof.
  unfold Signup.addExam. split.
  - intros Hin. apply JsObjectFacts.includes_In in Hin. now rewrite Hin.
  - intros Hnot.
    destruct (JsObject.includes (Signup.selectedExams st) exam) eqn:Hinc;
      [apply JsObjectFacts.includes_In in Hinc; contradiction|].
    simpl. split; [reflexivity|]. split; [apply JsObjectFacts.get_set_same|].
    intros k Hk. now apply JsObjectFacts.get_set_other.
Qed.

(** X11: [removeExam] drops the exam and its rate and leaves the other
    rates alone; removing an exam right after adding it, when it was neither
    selected nor rated before and the form mirrors the state, gives back the
    state before the addition. *)
Theorem removeExam_undoes_addExam (exam : jsstring) (st : Signup.SignupState) :
  (let st' := Signup.removeExam exam st in
   ~ In exam (Signup.selectedExams st')
   /\ JsObject.get exam (Signup.rates st') = None
   /\ forall k, k <> exam ->
                JsObject.get k (Signup.rates st') = JsObject.get k (Signup.rates st))
  /\ (~ In exam (Signup.selectedExams st) ->
      JsObject.get exam (Signup.rates st) = None ->
      Signup.exams (Signup.form st) = Signup.selectedExams st ->
      Signup.examRates (Signup.form st) = Signup.rates st ->
      Signup.removeExam exam (Signup.addExam exam st) = st).
Proof.
  split.
  - simpl. split; [|split].
    + intros Hin. apply filter_In in Hin as [_ He].
      now rewrite JsObjectFacts.str_eqb_refl in He.
    + apply JsObjectFacts.get_delete_same.
    + intros k Hk. now apply JsObjectFacts.get_delete_other.
  - intros Hnot Hrate Hexams Hform.
    unfold Signup.addExam.
    destruct (JsObject.includes (Signup.selectedExams st) exam) eqn:Hinc;
      [apply JsObjectFacts.includes_In in Hinc; contradiction|].
    unfold Signup.removeExam. simpl.
    rewrite filter_app, (SignupFacts.filter_absent _ _ Hnot). simpl.
    rewrite JsObjectFacts.str_eqb_refl. simpl. rewrite app_nil_r.
    rewrite (JsObjectFacts.delete_set_absent _ _ _ Hrate).
    destruct st as [t sel r [ut fn un dg yr ex er]]. simpl in *. now subst.
Qed.

(** ** Merging objects *)

Module SpreadFacts.
Import JsObject JsObjectFacts.

Section Values.
Variable V : Type.

Lemma spread_cons (a : obj V) (kv : jsstring * V) (b : obj V) :
  spread a (kv :: b) = spread (set (fst kv) (snd kv) a) b.
Proof. reflexivity. Qed.

(** In [{ ...a, ...b }] a key of [b] has the value [b] gives it, any other
    key the value [a] gives it. *)
Lemma get_spread (k : jsstring) (b : obj V) :
  forall a : obj V,
    NoDup (keys b) ->
    get k (spread a b) = match get k b with Some v => Some v | None => get k a end.
Proof.
  induction b as [|[k1 v1] b IH]; intros a Hnd; [reflexivity|].
  rewrite spread_cons. simpl fst. simpl snd.
  inversion Hnd as [|? ? Hnot Hnd']; subst.
  rewrite (IH _ Hnd'). simpl.
  destruct (str_eqb k1 k) eqn:Hk.
  - apply str_eqb_eq in Hk. subst k1.
    apply (get_none_keys k b) in Hnot. rewrite Hnot. apply get_set_same.
  - apply str_eqb_neq in Hk. destruct (get k b); [reflexivity|].
    apply get_set_other. congruence.
Qed.

Lemma NoDup_keys_spread (b : obj V) :
  forall a : obj V, NoDup (keys a) -> NoDup (keys (spread a b)).
Proof.
  induction b as [|[k1 v1] b IH]; intros a Hnd; [exact Hnd|].
  rewrite spread_cons. apply IH. now apply NoDup_keys_set.
Qed.

Lemma get_set_some (k k' : jsstring) (v : V) (o : obj V) :
  get k o <> None -> get k (set k' v o) <> None.
Proof.
  intros H. destruct (str_eqb k k') eqn:Hk.
  - apply str_eqb_eq in Hk. subst. now rewrite get_set_same.
  - apply str_eqb_neq in Hk. now rewrite get_set_other.
Qed.

Lemma get_spread_some (k : jsstring) (b : obj V) :
  forall a : obj V, get k a <> None -> get k (spread a b) <> None.
Proof.
  induction b as [|[k1 v1] b IH]; intros a H; [exact H|].
  rewrite spread_cons. apply IH. now apply get_set_some.
Qed.

End Values.
End SpreadFacts.

(** ** Rates shown, rates charged *)

Module RatesFacts.
Import JsObject JsObjectFacts SpreadFacts Rates.

Lemma NoDup_default_keys : NoDup (keys default_exam_rates).
Proof.
  unfold default_exam_rates, keys. simpl.
  repeat constructor; simpl; intros H;
    repeat (destruct H as [H|H]; [discriminate H|]); exact H.
Qed.

End RatesFacts.

(** X12: the rate a tutor card shows is the rate the payment handlers
    charge whenever the tutor has a truthy rate under the sign-up key of the
    section, or none under the section id; a tutor rated only under the
    section id is shown that rate and charged the default 30. *)
Theorem shown_rate_and_charged_rate
    (exam_rates : option (JsObject.obj float)) (s : Rates.ExamSection) :
  let rates := Rates.or_empty exam_rates in
  (has_rate (Rates.examKeyMap s) rates = true \/ has_rate (Rates.section_id s) rates = false ->
   Rates.getExamSpecificRate exam_rates s = Rates.hourlyRate exam_rates s)
  /\ (has_rate (Rates.examKeyMap s) rates = false ->
      forall r, JsObject.get (Rates.section_id s) rates = Some r -> number_truthy r = true ->
                Rates.getExamSpecificRate exam_rates s = r
                /\ Rates.hourlyRate exam_rates s = 30%float).
Proof.
  unfold has_rate, Rates.getExamSpecificRate, Rates.hourlyRate, number_or. simpl.
  destruct (JsObject.get (Rates.examKeyMap s) (Rates.or_empty exam_rates)) as [r1|];
    [destruct (number_truthy r1)|]; split.
  - reflexivity.
  - discriminate.
  - intros [H|H]; [discriminate|].
    destruct (JsObject.get (Rates.section_id s) (Rates.or_empty exam_rates)) as [r2|];
      [now rewrite H | reflexivity].
  - intros _ r -> ->. split; reflexivity.
  - intros [H|H]; [discriminate|].
    destruct (JsObject.get (Rates.section_id s) (Rates.or_empty exam_rates)) as [r2|];
      [now rewrite H | reflexivity].
  - intros _ r -> ->. split; reflexivity.
Qed.

(** X13: every exam the sign-up form offers is the pricing key of one
    section of the tutors page, and a rate set for it on the form is the rate
    charged and shown for that section: 25 right after [addExam], the typed
    rate after [updateExamRate] when that rate is truthy. *)
Theorem signup_rate_is_charged
    (exam : jsstring) (rate : float) (st : Signup.SignupState) :
  In exam Signup.offered_exams ->
  ~ In exam (Signup.selectedExams st) ->
  number_truthy rate = true ->
  exists s : Rates.ExamSection,
    Rates.examKeyMap s = exam
    /\ Rates.hourlyRate (Some (Signup.rates (Signup.addExam exam st))) s = 25%float
    /\ Rates.getExamSpecificRate (Some (Signup.rates (Signup.addExam exam st))) s = 25%float
    /\ Rates.hourlyRate
         (Some (Signup.rates (Signup.updateExamRate exam rate (Signup.addExam exam st)))) s
       = rate
    /\ Rates.getExamSpecificRate
         (Some (Signup.rates (Signup.updateExamRate exam rate (Signup.addExam exam st)))) s
       = rate.
Proof.
  intros Hoffered Hnot Hrate.
  assert (Hs : exists s, Rates.examKeyMap s = exam).
  { simpl in Hoffered.
    destruct Hoffered as [<-|[<-|[<-|[<-|[]]]]];
      [now exists Rates.Tmua | now exists Rates.Mat | now exists Rates.Esat
       | now exists Rates.InterviewPrep]. }
  destruct Hs as [s Hs]. exists s. split; [exact Hs|].
  assert (Hget : JsObject.get exam (Signup.rates (Signup.addExam exam st)) = Some 25%float).
  { unfold Signup.addExam.
    destruct (JsObject.includes (Signup.selectedExams st) exam) eqn:Hinc;
      [apply JsObjectFacts.includes_In in Hinc; contradiction|].
    apply JsObjectFacts.get_set_same. }
  unfold Rates.getExamSpecificRate, Rates.hourlyRate, number_or. simpl Rates.or_empty.
  rewrite Hs, Hget. simpl Signup.rates at 1 2.
  rewrite JsObjectFacts.get_set_same, Hrate.
  repeat split; reflexivity.
Qed.

Lemma signup_rate_is_charged_witness :
  exists s : Rates.ExamSection,
    Rates.examKeyMap s = of_string "Interview prep"
    /\ Rates.hourlyRate
         (Some (Signup.rates (Signup.addExam (of_string "Interview prep") Signup.initial))) s
       = 25%float
    /\ Rates.getExamSpecificRate
         (Some (Signup.rates (Signup.addExam (of_string "Interview prep") Signup.initial))) s
       = 25%float
    /\ Rates.hourlyRate
         (Some (Signup.rates (Signup.updateExamRate (of_string "Interview prep") 40
                                (Signup.addExam (of_string "Interview prep") Signup.initial)))) s
       = 40%float
    /\ Rates.getExamSpecificRate
         (Some (Signup.rates (Signup.updateExamRate (of_string "Interview prep") 40
                                (Signup.addExam (of_string "Interview prep") Signup.initial)))) s
       = 40%float.
Proof.
  apply (@signup_rate_is_charged (of_string "Interview prep") 40%float Signup.initial).
  - simpl. tauto.
  - simpl. tauto.
  - reflexivity.
Defined.

(** ** The rates of the profile page *)

(** X14: the rates the profile form starts from hold, for every key, the
    stored rate if there is one and the page's default otherwise; writing
    them back with [saveProfile] and loading the profile again gives the same
    rates for every key. *)
Theorem profile_rates_merge_and_reload
    (stored : option (JsObject.obj float)) (k : jsstring) :
  JsObject.get k (Rates.form_exam_rates (Rates.saved_exam_rates (Rates.form_exam_rates stored)))
  = JsObject.get k (Rates.form_exam_rates stored)
  /\ (forall r, stored = Some r -> NoDup (JsObject.keys r) ->
                JsObject.get k (Rates.form_exam_rates stored)
                = match JsObject.get k r with
                  | Some v => Some v
                  | None => JsObject.get k Rates.default_exam_rates
                  end).
Proof.
  split.
  - assert (Hnd : NoDup (JsObject.keys (Rates.form_exam_rates stored))).
    { destruct stored as [r|]; simpl;
        [apply SpreadFacts.NoDup_keys_spread|]; apply RatesFacts.NoDup_default_keys. }
    cbn [Rates.form_exam_rates Rates.saved_exam_rates].
    rewrite (@SpreadFacts.get_spread float k (Rates.form_exam_rates stored)
               Rates.default_exam_rates Hnd).
    destruct (JsObject.get k (Rates.form_exam_rates stored)) eqn:Hg; [reflexivity|].
    destruct (JsObject.get k Rates.default_exam_rates) eqn:Hd; [|reflexivity].
    exfalso. destruct stored as [r|]; cbn [Rates.form_exam_rates] in Hg; [|congruence].
    apply (@SpreadFacts.get_spread_some float k r Rates.default_exam_rates);
      [congruence | exact Hg].
  - intros r -> Hnd. cbn [Rates.form_exam_rates].
    exact (@SpreadFacts.get_spread float k r Rates.default_exam_rates Hnd).
Qed.

(** X15: opening the profile form and saving it unchanged does not change
    what the payment handlers charge for any section, and whatever is stored
    under the profile page's own key ['interview-prep'] is never read by
    them.  The tutors page does read that key: a tutor without a rate under
    the sign-up key ['Interview prep'] is, after such a save, shown 35 and
    charged 30 for interview preparation. *)
Theorem profile_save_and_charged_rate
    (stored : option (JsObject.obj float)) (s : Rates.ExamSection) :
  match stored with Some r => NoDup (JsObject.keys r) | None => True end ->
  let saved := Rates.saved_exam_rates (Rates.form_exam_rates stored) in
  Rates.hourlyRate saved s = Rates.hourlyRate stored s
  /\ (forall (v : float) (o : JsObject.obj float),
         Rates.hourlyRate (Some (JsObject.set profile_interview_key v o)) s
         = Rates.hourlyRate (Some o) s)
  /\ (has_rate (Rates.examKeyMap Rates.InterviewPrep) (Rates.or_empty stored) = false ->
      JsObject.get profile_interview_key (Rates.or_empty stored) = None ->
      Rates.getExamSpecificRate saved Rates.InterviewPrep = 35%float
      /\ Rates.hourlyRate saved Rates.InterviewPrep = 30%float).
Proof.
  intros Hnd saved.
  assert (Hget : forall k,
             JsObject.get k (Rates.form_exam_rates stored)
             = match JsObject.get k (Rates.or_empty stored) with
               | Some v => Some v
               | None => JsObject.get k Rates.default_exam_rates
               end).
  { intros k. destruct stored as [r|]; cbn [Rates.form_exam_rates Rates.or_empty].
    - exact (@SpreadFacts.get_spread float k r Rates.default_exam_rates Hnd).
    - reflexivity. }
  split; [|split].
  - unfold Rates.hourlyRate, saved, Rates.saved_exam_rates.
    simpl Rates.or_empty at 1. rewrite Hget.
    destruct (JsObject.get (Rates.examKeyMap s) (Rates.or_empty stored)); [reflexivity|].
    now destruct s.
  - intros v o. unfold Rates.hourlyRate. simpl Rates.or_empty.
    rewrite JsObjectFacts.get_set_other; [reflexivity|].
    unfold profile_interview_key. now destruct s.
  - unfold has_rate. intros Hkey Hsection.
    unfold Rates.getExamSpecificRate, Rates.hourlyRate, saved, Rates.saved_exam_rates,
      number_or.
    simpl Rates.or_empty. rewrite !Hget.
    change (Rates.section_id Rates.InterviewPrep) with profile_interview_key.
    rewrite Hsection.
    destruct (JsObject.get (Rates.examKeyMap Rates.InterviewPrep) (Rates.or_empty stored))
      as [r|]; [rewrite Hkey|]; split; reflexivity.
Qed.

Lemma profile_save_and_charged_rate_witness :
  let stored := Some [(of_string "TMUA", 45%float)] in
  let saved := Rates.saved_exam_rates (Rates.form_exam_rates stored) in
  Rates.hourlyRate saved Rates.InterviewPrep = Rates.hourlyRate stored Rates.InterviewPrep
  /\ (forall (v : float) (o : JsObject.obj float),
         Rates.hourlyRate (Some (JsObject.set profile_interview_key v o)) Rates.InterviewPrep
         = Rates.hourlyRate (Some o) Rates.InterviewPrep)
  /\ (has_rate (Rates.examKeyMap Rates.InterviewPrep) (Rates.or_empty stored) = false ->
      JsObject.get profile_interview_key (Rates.or_empty stored) = None ->
      Rates.getExamSpecificRate saved Rates.InterviewPrep = 35%float
      /\ Rates.hourlyRate saved Rates.InterviewPrep = 30%float).
Proof.
  apply (@profile_save_and_charged_rate (Some [(of_string "TMUA", 45%float)])
           Rates.InterviewPrep).
  simpl. repeat constructor. intros [].
Defined.

Lemma profile_save_shows_35_charges_30 :
  let saved := Rates.saved_exam_rates
                 (Rates.form_exam_rates (Some [(of_string "TMUA", 45%float)])) in
  Rates.getExamSpecificRate saved Rates.InterviewPrep = 35%float
  /\ Rates.hourlyRate saved Rates.InterviewPrep = 30%float
  /\ Rates.hourlyRate saved Rates.Tmua = 45%float.
Proof. repeat split. Qed.

(** ** Whole-pound rates *)

Lemma in_upto (n x : N) : (1 <= x <= n)%N -> In x (upto n).
Proof.
  intros Hx. unfold upto. apply in_map_iff. exists (N.to_nat x).
  split; [apply N2Nat.id|]. apply in_seq. lia.
Qed.

Lemma all_exact_spec (rates lessons h q : N) :
  all_exact rates lessons = true ->
  (1 <= h <= rates)%N -> (1 <= q <= lessons)%N -> split_is_exact h q = true.
Proof.
  unfold all_exact. intros Hall Hh Hq.
  rewrite forallb_forall in Hall. specialize (Hall h (in_upto Hh)).
  rewrite forallb_forall in Hall. exact (Hall q (in_upto Hq)).
Qed.

Lemma all_exact_1000_20 : all_exact 1000 20 = true.
Proof. vm_compute. reflexivity. Qed.

(** X16: for every hourly rate of 1 to 1000 whole pounds and every quantity
    of 1 to 20 lessons, in binary64 arithmetic: the connect handler's
    platform fee is exactly 15 per cent and the tutor's amount exactly 85 per
    cent of the price in pence, their sum and the plain handler's stored
    amount are the price in pence, and the unit amount sent to the checkout
    is the rate in pence, so the stored amount equals unit amount times
    quantity. *)
Theorem whole_pound_split_is_exact (h q : N) :
  (1 <= h <= 1000)%N -> (1 <= q <= 20)%N ->
  let s := Payment.payment_calculation (whole h) (whole q) in
  Payment.tutorAmount s = whole (85 * h * q)
  /\ Payment.platformFee s = whole (15 * h * q)
  /\ Payment.totalAmount s = whole (100 * h * q)
  /\ Rates.plain_totalAmount (whole h) (whole q) = whole (100 * h * q)
  /\ Rates.unit_amount (Rates.line_item (whole h) (whole q)) = whole (100 * h).
Proof.
  intros Hh Hq.
  pose proof (all_exact_spec all_exact_1000_20 Hh Hq) as Hall.
  unfold split_is_exact in Hall.
  repeat (apply andb_true_iff in Hall as [Hall ?]).
  repeat split; now apply FloatAxioms.Leibniz.eqb_spec.
Qed.

Lemma whole_pound_split_is_exact_witness :
  let s := Payment.payment_calculation (whole 30) (whole 1) in
  Payment.tutorAmount s = whole (85 * 30 * 1)
  /\ Payment.platformFee s = whole (15 * 30 * 1)
  /\ Payment.totalAmount s = whole (100 * 30 * 1)
  /\ Rates.plain_totalAmount (whole 30) (whole 1) = whole (100 * 30 * 1)
  /\ Rates.unit_amount (Rates.line_item (whole 30) (whole 1)) = whole (100 * 30).
Proof.
  apply (@whole_pound_split_is_exact 30%N 1%N); lia.
Defined.
